(** * block-seek: a shallow embedding of the agent core and its tools

    The development follows the Python sources of the repository:

    - [agent/core.py]   : [Web3AgentOutputParser.parse],
                          [EnhancedConversationMemory], [Web3Agent]
    - [tools/base.py]   : [BaseTool], [retry_on_failure]
    - [tools/nft.py]    : [NFTTool]
    - [utils/api.py]    : [RateLimiter], [APIHandler.make_request]

    Python text is modelled as a list of characters.  A character is a
    code point below 256 (type [ascii]); the whitespace and lower-case
    tables below are the ones of Python's [str] on that range. *)

From Stdlib Require Import List Ascii String ZArith NArith Lia Bool.
From Stdlib Require Import DecimalString Floats.SpecFloat.
From stdpp Require Import gmap strings list.

Import ListNotations.
Local Open Scope list_scope.

(** ** Python strings *)

Module Py.

Abbreviation str := (list ascii).

(** A Python literal. *)
Definition py (s : string) : str := list_ascii_of_string s.

(** [str.isspace] on one character: U+0009..U+000D, U+001C..U+0020,
    U+0085 and U+00A0. *)
Definition isspace (c : ascii) : bool :=
  let n := N_of_ascii c in
  (((9 <=? n) && (n <=? 13)) || ((28 <=? n) && (n <=? 32))
   || (n =? 133) || (n =? 160))%N.

(** [str.lower] on one character: A..Z, and U+00C0..U+00DE except the
    multiplication sign U+00D7. *)
Definition lower_char (c : ascii) : ascii :=
  let n := N_of_ascii c in
  if (((65 <=? n) && (n <=? 90))
      || ((192 <=? n) && (n <=? 222) && negb (n =? 215)))%N
  then ascii_of_N (n + 32) else c.

Definition lower (s : str) : str := map lower_char s.

Fixpoint lstrip (s : str) : str :=
  match s with
  | c :: s' => if isspace c then lstrip s' else s
  | [] => []
  end.

Definition rstrip (s : str) : str := rev (lstrip (rev s)).

(** [s.strip()] *)
Definition strip (s : str) : str := lstrip (rstrip s).

(** [s.startswith(p)] *)
Fixpoint startswith (p s : str) : bool :=
  match p, s with
  | [], _ => true
  | _ :: _, [] => false
  | a :: p', b :: s' => if ascii_dec a b then startswith p' s' else false
  end.

(** [s.endswith(p)] *)
Definition endswith (p s : str) : bool := startswith (rev p) (rev s).

(** [s.find(sub)]: the lowest index at which [sub] occurs. *)
Fixpoint find (sub s : str) : option nat :=
  if startswith sub s then Some 0
  else match s with
       | [] => None
       | _ :: s' => option_map S (find sub s')
       end.

(** [sub in s] *)
Definition contains (sub s : str) : bool :=
  match find sub s with Some _ => true | None => false end.

(** [s.split(sep)] for a non-empty separator: cut at the leftmost
    occurrence and go on behind it.  Every cut removes at least one
    character, so [length s] rounds are enough. *)
Fixpoint split_fuel (fuel : nat) (sep s : str) : list str :=
  match find sep s with
  | None => [s]
  | Some i =>
      match fuel with
      | 0 => [s]
      | S fuel' => take i s :: split_fuel fuel' sep (drop (i + length sep) s)
      end
  end.

Definition split (sep s : str) : list str := split_fuel (length s) sep s.

(** A text no proper suffix of which begins it again: its occurrences in
    a text cannot overlap. *)
Definition unbordered (m : str) : bool :=
  forallb (fun d => negb (startswith (drop d m) m)) (seq 1 (length m - 1)).

(** [l[-1]] on a list of strings that is never empty. *)
Definition last_item (l : list str) : str := List.last l [].

(** [str(n)] for an [int]. *)
Definition str_of_Z (n : Z) : str := py (NilZero.string_of_int (Z.to_int n)).

End Py.

Import Py.

(** ** Exceptions

    An exception is observed through its class and through what
    [str(error)] gives.  Only instances of [Exception] are modelled: they
    are what an [except Exception] clause catches. *)

Module Exn.

Record exn := mk_exn { exn_class : string; exn_str : str }.

Inductive result (A : Type) : Type :=
| Ok (a : A)
| Raise (e : exn).

Arguments Ok {A} a.
Arguments Raise {A} e.

Definition raises {A : Type} (m : result A) : bool :=
  match m with Ok _ => false | Raise _ => true end.

Definition ValueError (msg : str) : exn := mk_exn "ValueError" msg.
Definition TypeError (msg : str) : exn := mk_exn "TypeError" msg.
Definition KeyError (msg : str) : exn := mk_exn "KeyError" msg.
Definition NameError (msg : str) : exn := mk_exn "NameError" msg.
Definition AttributeError (msg : str) : exn := mk_exn "AttributeError" msg.
Definition ZeroDivisionError (msg : str) : exn := mk_exn "ZeroDivisionError" msg.
Definition OverflowError (msg : str) : exn := mk_exn "OverflowError" msg.
Definition ToolException (msg : str) : exn := mk_exn "ToolException" msg.

End Exn.

Import Exn.

(** ** agent/core.py: [Web3AgentOutputParser] *)

Module OutputParser.

Definition LF : ascii := ascii_of_nat 10.

Definition FINAL_ANSWER : str := py "Final Answer:".
Definition ACTION : str := py "Action:".
Definition ACTION_INPUT : str := py "Action Input:".

(** The regular-expression piece [" *"]: greedy, and what follows it in
    both patterns can give nothing back to it. *)
Fixpoint skip_spaces (s : str) : str :=
  match s with
  | c :: s' => if ascii_dec c " "%char then skip_spaces s' else s
  | [] => []
  end.

(** The lazy group [(.*?)] in front of the class [[\n$]]: the characters
    up to the first line feed or dollar sign (inside a class the dollar
    is a literal); no match when there is neither. *)
Fixpoint lazy_until_class (s : str) : option str :=
  match s with
  | [] => None
  | c :: s' =>
      if ascii_dec c LF then Some []
      else if ascii_dec c "$"%char then Some []
      else option_map (cons c) (lazy_until_class s')
  end.

(** The lazy group [(.*?)] in front of [(?:$|\n)]: the characters up to
    the first line feed, or up to the end of the text.  [re.DOTALL] lets
    the dot take a line feed, but the lazy group stops as soon as what
    follows it can match, and a line feed is such a place. *)
Fixpoint lazy_until_eol (s : str) : str :=
  match s with
  | [] => []
  | c :: s' => if ascii_dec c LF then [] else c :: lazy_until_eol s'
  end.

(** [re.search(r"Action: *(.*?)[\n$]", text)], as [group(1)].  A match can
    only start at an occurrence of the literal; when the leftmost one
    has no line feed or dollar sign behind it, no later one has. *)
Definition action_match (text : str) : option str :=
  match find ACTION text with
  | None => None
  | Some i => lazy_until_class (skip_spaces (drop (i + length ACTION) text))
  end.

(** [re.search(r"Action Input: *(.*?)(?:$|\n)", text, re.DOTALL)], as
    [group(1)]. *)
Definition action_input_match (text : str) : option str :=
  match find ACTION_INPUT text with
  | None => None
  | Some i =>
      Some (lazy_until_eol (skip_spaces (drop (i + length ACTION_INPUT) text)))
  end.

Section Parser.

(** Decoded JSON, and [json.loads]; [None] stands for
    [json.JSONDecodeError]. *)
Variable J : Type.
Variable json_loads : str -> option J.

Inductive tool_input : Type :=
| InputStr (s : str)
| InputJson (j : J).

(** [AgentAction(tool, tool_input, log)] and
    [AgentFinish(return_values={"output": ...}, log)]. *)
Inductive agent_step : Type :=
| AgentAction (tool : str) (input : tool_input) (log : str)
| AgentFinish (output : str) (log : str).

Definition decode_action_input (action_input : str) : tool_input :=
  if startswith (py "{") action_input && endswith (py "}") action_input
  then match json_loads action_input with
       | Some j => InputJson j
       | None => InputStr action_input
       end
  else InputStr action_input.

Definition parse (text : str) : result agent_step :=
  let text := strip text in
  if contains FINAL_ANSWER text then
    Ok (AgentFinish (strip (last_item (split FINAL_ANSWER text))) text)
  else
    match action_match text, action_input_match text with
    | Some a, Some i =>
        let action := strip a in
        let action_input := strip i in
        Ok (AgentAction action (decode_action_input action_input) text)
    | _, _ => Raise (ValueError (py "Could not parse LLM output: " ++ text))
    end.

End Parser.

Arguments InputStr {J} s.
Arguments InputJson {J} j.
Arguments AgentAction {J} tool input log.
Arguments AgentFinish {J} output log.

End OutputParser.

(** ** agent/core.py: [EnhancedConversationMemory] and the query rewriting
    of [Web3Agent] *)

Module Memory.

Inductive message : Type :=
| HumanMessage (content : str)
| AIMessage (content : str).

(** [EntityContext]: [last_address : Optional[str]], [None] by default. *)
Record EntityContext := mk_entity { last_address : option str }.

(** The memory object: the transcript kept by the inherited buffer memory
    ([chat_memory.messages]) and the entity context added by the
    subclass. *)
Record EnhancedConversationMemory := mk_memory {
  chat_memory : list message;
  entity_context : EntityContext
}.

(** [EnhancedConversationMemory(...)]: an empty transcript and the default
    entity context. *)
Definition new_memory : EnhancedConversationMemory :=
  mk_memory [] (mk_entity None).

(** The character class [[a-fA-F0-9]]. *)
Definition is_hex (c : ascii) : bool :=
  let n := N_of_ascii c in
  (((97 <=? n) && (n <=? 102)) || ((65 <=? n) && (n <=? 70))
   || ((48 <=? n) && (n <=? 57)))%N.

(** The pattern [0x[a-fA-F0-9]{40}] matched at the start of [s]. *)
Definition match_address (s : str) : option str :=
  match s with
  | c0 :: c1 :: rest =>
      if ascii_dec c0 "0"%char then
        if ascii_dec c1 "x"%char then
          let digits := take 40 rest in
          if (length digits =? 40) && forallb is_hex digits
          then Some (c0 :: c1 :: digits)
          else None
        else None
      else None
  | _ => None
  end.

(** A token of the shape of the pattern: [0x] and forty hexadecimal
    characters. *)
Definition address_shaped (tok : str) : bool :=
  match tok with
  | c0 :: c1 :: digits =>
      (if ascii_dec c0 "0"%char then true else false)
      && (if ascii_dec c1 "x"%char then true else false)
      && (length digits =? 40) && forallb is_hex digits
  | _ => false
  end.

(** [re.findall(r'0x[a-fA-F0-9]{40}', s)]: the matches from left to
    right, the search going on behind each match.  Every round drops at
    least one character. *)
Fixpoint findall_fuel (fuel : nat) (s : str) : list str :=
  match fuel with
  | 0 => []
  | S fuel' =>
      match s with
      | [] => []
      | _ :: s' =>
          match match_address s with
          | Some m => m :: findall_fuel fuel' (drop (length m) s)
          | None => findall_fuel fuel' s'
          end
      end
  end.

Definition findall_addresses (s : str) : list str := findall_fuel (length s) s.

(** The inherited [save_context]: the input and the output are appended
    to the transcript as a human and an assistant message. *)
Definition buffer_save_context (self : EnhancedConversationMemory)
    (input output : str) : EnhancedConversationMemory :=
  mk_memory (chat_memory self ++ [HumanMessage input; AIMessage output])
            (entity_context self).

(** [EnhancedConversationMemory.save_context(inputs, outputs)] with
    [inputs = {"input": input}] and [outputs = {"output": output}]. *)
Definition save_context (self : EnhancedConversationMemory)
    (input output : str) : EnhancedConversationMemory :=
  let self := buffer_save_context self input output in
  let query := lower input in
  let eth_addresses := findall_addresses query in
  match eth_addresses with
  | first :: _ => mk_memory (chat_memory self) (mk_entity (Some first))
  | [] => self
  end.

(** The inherited [clear]: it empties the transcript.  The subclass does
    not override it. *)
Definition clear (self : EnhancedConversationMemory)
  : EnhancedConversationMemory :=
  mk_memory [] (entity_context self).

(** [Web3Agent.clear_memory]: [self.memory.clear()]. *)
Definition clear_memory (memory : EnhancedConversationMemory)
  : EnhancedConversationMemory :=
  clear memory.

(** The calls made on the memory object, whoever makes them.
    [save_context] is called by [process_query], with the query as the
    user gave it and the response, and by the executor, which is built
    with [memory=self.memory], with its own input (the rewritten query)
    and its output; [clear] is called by [clear_memory]. *)
Inductive memory_op : Type :=
| OpSaveContext (input output : str)
| OpClearMemory.

Definition apply_op (m : EnhancedConversationMemory) (op : memory_op)
  : EnhancedConversationMemory :=
  match op with
  | OpSaveContext i o => save_context m i o
  | OpClearMemory => clear_memory m
  end.

Definition apply_ops (m : EnhancedConversationMemory) (ops : list memory_op)
  : EnhancedConversationMemory :=
  fold_left apply_op ops m.

(** Truth value of an [Optional[str]]: [None] and the empty string are
    false. *)
Definition truthy (o : option str) : bool :=
  match o with
  | Some (_ :: _) => true
  | _ => false
  end.

Definition CUE_WORDS : list str := [py "it"; py "that"; py "the"; py "this"].

(** ["\n".join(parts)] *)
Fixpoint join_lines (parts : list str) : str :=
  match parts with
  | [] => []
  | [p] => p
  | p :: rest => p ++ [OutputParser.LF] ++ join_lines rest
  end.

(** The second step of [_format_query_with_context]: a context that is
    not empty is appended under a heading. *)
Definition add_context (query : str) (context : list (str * str)) : str :=
  match context with
  | [] => query
  | _ :: _ =>
      let context_str :=
        join_lines (map (fun kv => fst kv ++ py ": " ++ snd kv) context) in
      query ++ [OutputParser.LF] ++ py "Context:" ++ [OutputParser.LF]
            ++ context_str
  end.

(** [Web3Agent._format_query_with_context(query, context)]; the context
    mapping is given as its items, values already rendered by [str]. *)
Definition _format_query_with_context (memory : EnhancedConversationMemory)
    (query : str) (context : list (str * str)) : str :=
  let stored := last_address (entity_context memory) in
  let query :=
    if negb (contains (py "address") (lower query))
       && truthy stored
       && existsb (fun word => contains word (lower query)) CUE_WORDS
    then
      match stored with
      | Some address => query ++ py " for address " ++ address
      | None => query
      end
    else query in
  add_context query context.

End Memory.

(** ** The orchestration loop

    [Web3Agent._create_agent_executor] builds the executor with
    [max_iterations=5] and [handle_parsing_errors=True]; the loop that
    these two settings drive belongs to the agent framework and is not
    part of the sources.  Its states and transitions are taken from the
    specification; the parser it runs is [OutputParser.parse].  The
    handler that [handle_parsing_errors] switches on catches the
    framework's [OutputParserException] and nothing else: any other
    exception of the parser leaves the executor. *)

Module Executor.

Import OutputParser Memory.

(** The settings passed to [AgentExecutor(...)] in agent/core.py. *)
Definition MAX_ITERATIONS : nat := 5.
Definition HANDLE_PARSING_ERRORS : bool := true.

(** The class of exceptions that the executor's handler of parsing errors
    catches. *)
Definition OUTPUT_PARSER_EXCEPTION : string := "OutputParserException".

Definition is_parsing_error (e : exn) : bool :=
  String.eqb (exn_class e) OUTPUT_PARSER_EXCEPTION.

Inductive fail_reason : Type :=
| IterationExhausted.

Section Loop.

Variable J : Type.
Variable json_loads : str -> option J.

(** One scratchpad entry: the raw model text of the action taken and the
    observation received. *)
Record scratch_entry := mk_entry { entry_log : str; entry_observation : str }.

(** What one rendered prompt holds. *)
Record prompt := mk_prompt {
  prompt_tools : list str;
  prompt_transcript : list message;
  prompt_query : str;
  prompt_scratchpad : list scratch_entry
}.

(** The model: the text it gives on its [n]-th call for a prompt. *)
Variable llm : nat -> prompt -> str.

(** The registry: tool names with the observation text each tool gives
    for an input. *)
Variable tools : list (str * (tool_input J -> str)).

Variable max_iterations : nat.
Variable handle_parsing_errors : bool.

Variable transcript : list message.
Variable query : str.

Inductive loop_state : Type :=
| RENDER_PROMPT
| INVOKE_MODEL (p : prompt)
| PARSE_OUTPUT (raw : str)
| DISPATCH_TOOL (tool : str) (input : tool_input J) (log : str)
| DONE (answer : str)
| FAILED (why : fail_reason)
| RAISED (e : exn).

(** A run: the state, the scratchpad, and the number of prompts rendered
    so far. *)
Record run := mk_run {
  state : loop_state;
  scratchpad : list scratch_entry;
  renders : nat
}.

Fixpoint lookup_tool (name : str) (reg : list (str * (tool_input J -> str)))
  : option (tool_input J -> str) :=
  match reg with
  | [] => None
  | (n, f) :: reg' =>
      if decide (n = name) then Some f else lookup_tool name reg'
  end.

Definition PARSE_ERROR_OBSERVATION : str :=
  py "could not parse output, must use the exact format".
Definition TOOL_NOT_FOUND : str := py "tool not found".

(** Modelled from the spec: the transition function of the executor loop
    (section 4.3), which the sources only configure.  A prompt is
    rendered only while fewer than [max_iterations] have been; an unknown
    tool name gives an observation, not a fault.  An exception of the
    parser is folded back as an observation when parsing errors are
    handled and it is an [OutputParserException]; otherwise it ends the
    run in [RAISED]: it leaves the executor and reaches the [except] of
    [process_query]. *)
Definition step (r : run) : run :=
  match state r with
  | RENDER_PROMPT =>
      if max_iterations <=? renders r
      then mk_run (FAILED IterationExhausted) (scratchpad r) (renders r)
      else mk_run (INVOKE_MODEL
                     (mk_prompt (map fst tools) transcript query (scratchpad r)))
                  (scratchpad r) (S (renders r))
  | INVOKE_MODEL p =>
      mk_run (PARSE_OUTPUT (llm (renders r) p)) (scratchpad r) (renders r)
  | PARSE_OUTPUT raw =>
      match parse J json_loads raw with
      | Ok (AgentFinish answer _) =>
          mk_run (DONE answer) (scratchpad r) (renders r)
      | Ok (AgentAction tool input log) =>
          mk_run (DISPATCH_TOOL tool input log) (scratchpad r) (renders r)
      | Raise e =>
          if handle_parsing_errors && is_parsing_error e
          then mk_run RENDER_PROMPT
                      (scratchpad r ++ [mk_entry raw PARSE_ERROR_OBSERVATION])
                      (renders r)
          else mk_run (RAISED e) (scratchpad r) (renders r)
      end
  | DISPATCH_TOOL tool input log =>
      let observation :=
        match lookup_tool tool tools with
        | Some execute => execute input
        | None => TOOL_NOT_FOUND
        end in
      mk_run RENDER_PROMPT (scratchpad r ++ [mk_entry log observation])
             (renders r)
  | DONE _ => r
  | FAILED _ => r
  | RAISED _ => r
  end.

(** Modelled from the spec: a run starts in [RENDER_PROMPT] with an empty
    scratchpad (section 4.3). *)
Definition initial : run := mk_run RENDER_PROMPT [] 0.

Fixpoint run_steps (n : nat) (r : run) : run :=
  match n with
  | 0 => r
  | S n' => run_steps n' (step r)
  end.

Definition terminal (r : run) : bool :=
  match state r with
  | DONE _ | FAILED _ | RAISED _ => true
  | _ => false
  end.

(** An upper bound on the steps left before a terminal state. *)
Definition steps_left (r : run) : nat :=
  match state r with
  | RENDER_PROMPT => 1 + 4 * (max_iterations - renders r)
  | INVOKE_MODEL _ => 4 + 4 * (max_iterations - renders r)
  | PARSE_OUTPUT _ => 3 + 4 * (max_iterations - renders r)
  | DISPATCH_TOOL _ _ _ => 2 + 4 * (max_iterations - renders r)
  | DONE _ | FAILED _ | RAISED _ => 0
  end.

End Loop.

Arguments mk_run {J} state scratchpad renders.
Arguments state {J} r.
Arguments scratchpad {J} r.
Arguments renders {J} r.
Arguments RENDER_PROMPT {J}.
Arguments DONE {J} answer.
Arguments FAILED {J} why.
Arguments RAISED {J} e.
Arguments terminal {J} r.

(** The run of the agent's executor on a query: enough steps for five
    full cycles and the final transition. *)
Definition agent_run (J : Type) (json_loads : str -> option J)
    (llm : nat -> prompt -> str)
    (tools : list (str * (tool_input J -> str)))
    (transcript : list message) (query : str) : run J :=
  run_steps J json_loads llm tools MAX_ITERATIONS HANDLE_PARSING_ERRORS
            transcript query (1 + 4 * MAX_ITERATIONS)
            (initial J).

End Executor.

(** ** utils/api.py: [RateLimiter] and [APIHandler.make_request] *)

Module Api.

(** JSON data as [json.loads] and [response.json()] give it.  A [JDict]
    holds a Python [dict]: its keys are distinct. *)
#[warnings="-register-all"]
Inductive json : Type :=
| JNull
| JBool (b : bool)
| JInt (n : Z)
| JFloat (f : spec_float)
| JStr (s : str)
| JList (l : list json)
| JDict (items : list (str * json)).

(** [fastapi.HTTPException(status_code, detail)]; its [str] is the status
    code and the detail. *)
Definition HTTPException (status_code : Z) (detail : str) : exn :=
  mk_exn "HTTPException" (str_of_Z status_code ++ py ": " ++ detail).

Section Clock.

(** The clock values of [time.time()] with the float operations the
    limiter uses on them: subtraction, division, [<], the constant [1.0]
    and the conversion of an [int] ([None]: the [int] is too large). *)
Variable time : Type.
Variable tsub : time -> time -> time.
Variable tdiv : time -> time -> time.
Variable tlt : time -> time -> bool.
Variable one : time.
Variable to_float : Z -> option time.

Record RateLimiter := mk_limiter {
  requests_per_second : Z;
  last_request_time : gmap string time
}.

(** [RateLimiter(requests_per_second)] *)
Definition new_limiter (rps : Z) : RateLimiter := mk_limiter rps ∅.

(** [1.0 / self.requests_per_second] *)
Definition min_interval (rps : Z) : result time :=
  match to_float rps with
  | None => Raise (OverflowError (py "int too large to convert to float"))
  | Some r =>
      if (rps =? 0)%Z
      then Raise (ZeroDivisionError (py "float division by zero"))
      else Ok (tdiv one r)
  end.

Definition RATE_LIMIT_EXCEEDED : exn :=
  HTTPException 429 (py "Rate limit exceeded").

(** [RateLimiter.check_rate_limit(key)] when [time.time()] gives
    [current_time]: the outcome and the limiter afterwards. *)
Definition check_rate_limit (self : RateLimiter) (current_time : time)
    (key : string) : result unit * RateLimiter :=
  let allow :=
    (Ok tt, mk_limiter (requests_per_second self)
                       (<[key := current_time]> (last_request_time self))) in
  match last_request_time self !! key with
  | Some last =>
      let time_passed := tsub current_time last in
      match min_interval (requests_per_second self) with
      | Raise e => (Raise e, self)
      | Ok interval =>
          if tlt time_passed interval
          then (Raise RATE_LIMIT_EXCEEDED, self)
          else allow
      end
  | None => allow
  end.

(** A sequence of calls on one limiter, each with its key and the clock
    value it reads; the outcomes in call order and the limiter at the
    end. *)
Fixpoint run_calls (self : RateLimiter) (calls : list (string * time))
  : list (result unit) * RateLimiter :=
  match calls with
  | [] => ([], self)
  | (key, now) :: calls' =>
      let '(outcome, self') := check_rate_limit self now key in
      let '(outcomes, self'') := run_calls self' calls' in
      (outcome :: outcomes, self'')
  end.

(** The clock value of the latest call for [key] that was let through,
    read off the calls and their outcomes. *)
Fixpoint last_allowed (key : string) (calls : list (string * time))
    (outcomes : list (result unit)) : option time :=
  match calls, outcomes with
  | (k, now) :: calls', outcome :: outcomes' =>
      match last_allowed key calls' outcomes' with
      | Some t => Some t
      | None =>
          if decide (k = key)
          then match outcome with Ok _ => Some now | Raise _ => None end
          else None
      end
  | _, _ => None
  end.

(** *** [APIHandler] *)

Inductive payload : Type :=
| PJson (j : json)
| PText (s : str).

(** The dictionaries [make_request] returns; a key that is absent is
    [None]. *)
Record envelope := mk_envelope {
  success : bool;
  data : option payload;
  error : option str;
  detail : option str;
  status_code : option Z
}.

(** The three handlers of the retry loop, in their order: what they catch
    of the exceptions raised while a request is made or its body is
    read. *)
Inductive raised : Type :=
| TimeoutError
| ClientError (msg : str)
| OtherException (msg : str).

Inductive json_outcome : Type :=
| JsonOk (j : json)
| JsonValueError
| JsonRaised (r : raised).

(** A response: its status, and what reading its body as text and as JSON
    gives. *)
Record http_response := mk_response {
  status : Z;
  read_text : raised + str;
  read_json : json_outcome
}.

(** What one attempt meets: an exception before any response, or a
    response. *)
Inductive attempt_outcome : Type :=
| Raised (r : raised)
| Responded (resp : http_response).

Inductive event : Type :=
| Request (attempt : nat)
| Sleep (seconds : Z).

(** [response.status // 100 not in [2, 3]] *)
Definition bad_status (st : Z) : bool :=
  negb (((st / 100) =? 2) || ((st / 100) =? 3))%Z.


Record APIHandler := mk_handler {
  api_key : option str;
  rate_limiters : gmap string RateLimiter
}.

(** [APIHandler.get_rate_limiter(api_name)]: the limiter of the name,
    created with the default rate when there is none. *)
Definition get_rate_limiter (self : APIHandler) (api_name : string)
  : RateLimiter * APIHandler :=
  match rate_limiters self !! api_name with
  | Some limiter => (limiter, self)
  | None =>
      let limiter := new_limiter 10 in
      (limiter, mk_handler (api_key self)
                           (<[api_name := limiter]> (rate_limiters self)))
  end.

Section MakeRequest.

(** The arguments of [make_request] that its control flow reads, and the
    outcome [transport n] that attempt [n] meets. *)
Variable url : str.
Variable timeout : Z.
Variable retry_count : Z.
Variable retry_delay : Z.
Variable transport : nat -> attempt_outcome.

Definition http_error_envelope (status : Z) (error_data : str) : envelope :=
  mk_envelope false None (Some (py "HTTP " ++ str_of_Z status))
              (Some error_data) (Some status).

Definition success_envelope (d : payload) (status : Z) : envelope :=
  mk_envelope true (Some d) None None (Some status).

Definition failure_envelope (r : raised) : envelope :=
  match r with
  | TimeoutError =>
      mk_envelope false None (Some (py "Request timeout"))
        (Some (py "Request to " ++ url ++ py " timed out after "
                  ++ str_of_Z timeout ++ py " seconds"))
        None
  | ClientError msg =>
      mk_envelope false None (Some (py "Connection error")) (Some msg) None
  | OtherException msg =>
      mk_envelope false None (Some (py "Request failed")) (Some msg) None
  end.

(** An [except] clause of the loop: it returns on the last attempt and
    falls through otherwise. *)
Definition on_raised (attempt : nat) (r : raised) : option envelope :=
  if (Z.of_nat attempt =? retry_count - 1)%Z
  then Some (failure_envelope r)
  else None.

(** The [try] statement of one attempt: [Some] is a [return], [None]
    leaves the statement by its end. *)
Definition try_request (attempt : nat) : option envelope :=
  match transport attempt with
  | Raised r => on_raised attempt r
  | Responded response =>
      if bad_status (status response)
      then match read_text response with
           | inr error_data =>
               Some (http_error_envelope (status response) error_data)
           | inl r => on_raised attempt r
           end
      else match read_json response with
           | JsonOk j => Some (success_envelope (PJson j) (status response))
           | JsonValueError =>
               match read_text response with
               | inr text_data =>
                   Some (success_envelope (PText text_data) (status response))
               | inl r => on_raised attempt r
               end
           | JsonRaised r => on_raised attempt r
           end
  end.

(** [for attempt in range(retry_count)], from [attempt] on with
    [remaining] rounds to go: the value returned ([None] when the loop
    runs out and the function ends without a [return]) and the requests
    and sleeps performed. *)
Fixpoint request_loop (remaining attempt : nat) : option envelope * list event :=
  match remaining with
  | 0 => (None, [])
  | S remaining' =>
      match try_request attempt with
      | Some response => (Some response, [Request attempt])
      | None =>
          let sleep :=
            if (Z.of_nat attempt <? retry_count - 1)%Z
            then [Sleep (retry_delay * (Z.of_nat attempt + 1))]
            else [] in
          let '(returned, events) := request_loop remaining' (S attempt) in
          (returned, Request attempt :: sleep ++ events)
      end
  end.

(** [APIHandler.make_request(api_name, url, ..., timeout, ..., retry_count,
    retry_delay)] when [time.time()] gives [current_time]: the rate-limit
    check, then the retry loop. *)
Definition make_request (self : APIHandler) (current_time : time)
    (api_name : string)
  : result (option envelope) * APIHandler * list event :=
  let '(rate_limiter, self) := get_rate_limiter self api_name in
  let '(checked, rate_limiter) :=
    check_rate_limit rate_limiter current_time api_name in
  let self :=
    mk_handler (api_key self)
               (<[api_name := rate_limiter]> (rate_limiters self)) in
  match checked with
  | Raise e => (Raise e, self, [])
  | Ok _ =>
      let '(returned, events) := request_loop (Z.to_nat retry_count) 0 in
      (Ok returned, self, events)
  end.

End MakeRequest.

End Clock.

(** IEEE double precision, the [float] of Python, for concrete runs. *)
Module Double.
Definition sub : spec_float -> spec_float -> spec_float := SFsub 53 1024.
Definition div : spec_float -> spec_float -> spec_float := SFdiv 53 1024.
Definition ltb : spec_float -> spec_float -> bool := SFltb.
Definition of_int (n : Z) : option spec_float :=
  match binary_normalize 53 1024 n 0 false with
  | S754_infinity _ => None
  | f => Some f
  end.
Definition one : spec_float := binary_normalize 53 1024 1 0 false.
(** The decimal [n / 1000] as the nearest double. *)
Definition millis (n : Z) : spec_float :=
  SFdiv 53 1024 (binary_normalize 53 1024 n 0 false)
                (binary_normalize 53 1024 1000 0 false).
End Double.

End Api.

(** ** tools/base.py and tools/nft.py *)

Module Tools.

Import Api.

(** *** Coroutines

    A coroutine of a tool runs against the outside world (the upstream
    services, the clock, the caches): it takes the world as it finds it
    and gives back a value or a raised exception, and the world as it
    leaves it. *)

Section World.

Variable world : Type.

Definition M (A : Type) : Type := world -> result A * world.

Definition ret {A : Type} (a : A) : M A := fun w => (Ok a, w).

Definition raise {A : Type} (e : exn) : M A := fun w => (Raise e, w).

Definition bindM {A B : Type} (m : M A) (k : A -> M B) : M B :=
  fun w =>
    match m w with
    | (Ok a, w') => k a w'
    | (Raise e, w') => (Raise e, w')
    end.

(** [try: body  except Exception as e: handler(e)] *)
Definition try_except {A : Type} (body : M A) (handler : exn -> M A) : M A :=
  fun w =>
    match body w with
    | (Ok a, w') => (Ok a, w')
    | (Raise e, w') => handler e w'
    end.

End World.

Arguments ret {world A} a.
Arguments raise {world A} e.
Arguments bindM {world A B} m k.
Arguments try_except {world A} body handler.

Declare Scope coroutine_scope.
Delimit Scope coroutine_scope with co.
Notation "'await' x <- m 'in' k" := (bindM m (fun x => k))
  (at level 10, x name, m at level 100, k at level 200)
  : coroutine_scope.
Local Open Scope coroutine_scope.

(** *** tools/base.py *)

(** [retry_on_failure(max_attempts, delay)] around [func]: the loop of
    the wrapper from [attempt] on, with [remaining] rounds to go.  The
    module does not import [asyncio], so the sleep between two attempts
    raises [NameError] out of the handler; ending the loop with no error
    recorded raises [TypeError]. *)
Fixpoint retry_loop {world A : Type} (func : M world A) (max_attempts : nat)
    (remaining attempt : nat) (last_error : option exn) : M world A :=
  match remaining with
  | 0 =>
      match last_error with
      | Some e => raise e
      | None => raise (TypeError (py "exceptions must derive from BaseException"))
      end
  | S remaining' =>
      try_except func (fun e =>
        if attempt <? max_attempts - 1
        then raise (NameError (py "name 'asyncio' is not defined"))
        else retry_loop func max_attempts remaining' (S attempt) (Some e))
  end.

Definition retry_on_failure {world A : Type} (max_attempts : nat)
    (func : M world A) : M world A :=
  retry_loop func max_attempts max_attempts 0 None.

(** The dictionaries built by [format_output] and [handle_error]; a key
    that is absent is [None]. *)
Record tool_envelope (R : Type) := mk_tool_envelope {
  env_status : str;
  env_tool : str;
  env_result : option R;
  env_error : option str
}.

Arguments mk_tool_envelope {R} env_status env_tool env_result env_error.
Arguments env_status {R} t.
Arguments env_tool {R} t.
Arguments env_result {R} t.
Arguments env_error {R} t.

(** [BaseTool.format_output(result)] *)
Definition format_output {world R : Type} (name : str) (result : R)
  : M world (tool_envelope R) :=
  ret (mk_tool_envelope (py "success") name (Some result) None).

(** [BaseTool.handle_error(error)] *)
Definition handle_error {world R : Type} (name : str) (error : exn)
  : M world (tool_envelope R) :=
  ret (mk_tool_envelope (py "error") name None (Some (exn_str error))).

(** *** Python values in [bool], [len] and iteration *)

Definition type_name (v : json) : str :=
  match v with
  | JNull => py "NoneType"
  | JBool _ => py "bool"
  | JInt _ => py "int"
  | JFloat _ => py "float"
  | JStr _ => py "str"
  | JList _ => py "list"
  | JDict _ => py "dict"
  end.

(** [bool(v)] *)
Definition json_truthy (v : json) : bool :=
  match v with
  | JNull => false
  | JBool b => b
  | JInt n => negb (n =? 0)%Z
  | JFloat (S754_zero _) => false
  | JFloat _ => true
  | JStr s => negb (length s =? 0)
  | JList l => negb (length l =? 0)
  | JDict items => negb (length items =? 0)
  end.

(** [list(v)]: the items that iterating over [v] gives. *)
Definition json_iter (v : json) : result (list json) :=
  match v with
  | JList l => Ok l
  | JStr s => Ok (map (fun c => JStr [c]) s)
  | JDict items => Ok (map (fun kv => JStr (fst kv)) items)
  | _ => Raise (TypeError (py "'" ++ type_name v ++ py "' object is not iterable"))
  end.

(** [d.get(key)] on the items of a [dict]. *)
Fixpoint dict_get (key : str) (items : list (str * json)) : option json :=
  match items with
  | [] => None
  | (k, v) :: items' => if decide (k = key) then Some v else dict_get key items'
  end.

(** [data.get(key)] on what an envelope carries as its data. *)
Definition payload_get (d : payload) (key : str) : result (option json) :=
  match d with
  | PJson (JDict items) => Ok (dict_get key items)
  | PJson v =>
      Raise (AttributeError
               (py "'" ++ type_name v ++ py "' object has no attribute 'get'"))
  | PText _ => Raise (AttributeError (py "'str' object has no attribute 'get'"))
  end.

(** *** tools/nft.py: [NFTTool] *)

Section NFTTool.

Variable world : Type.

(** What the tool gets from its collaborators: [Web3.is_address], the
    setting [NFT_ANALYSIS_LIMIT], [self.api_handler.make_request] for the
    "opensea" service, and the bodies of the decorated coroutines and of
    [analyze_price_trends], whose results are values of a type [value]. *)
Variable value : Type.
Variable is_address : str -> bool.
Variable NFT_ANALYSIS_LIMIT : Z.

Record request := mk_request {
  req_url : str;
  req_params : list (str * json)
}.

Variable make_request : request -> M world (option envelope).
Variable get_collection_stats_body : str -> M world value.
Variable get_token_metadata_body : str -> Z -> M world value.
Variable get_sales_history_body : str -> Z -> M world value.
Variable analyze_price_trends : value -> M world value.

Definition NAME : str := py "NFTTool".
Definition OPENSEA_API : str := py "https://api.opensea.io/api/v1".

(** [NFTTool.validate_input(contract_address)] *)
Definition validate_input (contract_address : str) : M world bool :=
  if is_address contract_address
  then ret true
  else raise (ToolException (py "Invalid NFT contract address")).

(** The coroutines under [@retry_on_failure()]. *)
Definition get_collection_stats (contract_address : str) : M world value :=
  retry_on_failure 3 (get_collection_stats_body contract_address).

Definition get_token_metadata (contract_address : str) (token_id : Z)
  : M world value :=
  retry_on_failure 3 (get_token_metadata_body contract_address token_id).

Definition get_sales_history (contract_address : str) (days : Z)
  : M world value :=
  retry_on_failure 3 (get_sales_history_body contract_address days).

(** How one round of the [while] loop of [calculate_rarity_scores]
    ends. *)
Inductive round_end : Type :=
| Break
| Continue (assets : list json) (offset : Z).

(** The body of the loop. *)
Definition rarity_round (contract_address : str) (limit : Z)
    (assets : list json) (offset : Z) : M world round_end :=
  let url := OPENSEA_API ++ py "/assets" in
  let params :=
    [(py "asset_contract_address", JStr contract_address);
     (py "limit", JInt (Z.min 50 (limit - Z.of_nat (length assets))));
     (py "offset", JInt offset)] in
  await response <- make_request (mk_request url params) in
  match response with
  | None => raise (TypeError (py "'NoneType' object is not subscriptable"))
  | Some response =>
      if negb (success response) then ret Break
      else
        match data response with
        | None => raise (KeyError (py "'data'"))
        | Some d =>
            match payload_get d (py "assets") with
            | Raise e => raise e
            | Ok None => ret Break
            | Ok (Some found) =>
                if negb (json_truthy found) then ret Break
                else
                  match json_iter found with
                  | Raise e => raise e
                  | Ok items =>
                      ret (Continue (assets ++ items)
                                    (offset + Z.of_nat (length items)))
                  end
            end
        end
  end.

(** [while len(assets) < limit: ...], giving the assets collected.  Every
    round that goes on adds an asset, so [limit] rounds are enough and
    the case of no fuel is met only with the loop condition false. *)
Fixpoint rarity_loop (fuel : nat) (contract_address : str) (limit : Z)
    (assets : list json) (offset : Z) : M world (list json) :=
  match fuel with
  | 0 => ret assets
  | S fuel' =>
      if (Z.of_nat (length assets) <? limit)%Z
      then
        await ended <- rarity_round contract_address limit assets offset in
        match ended with
        | Break => ret assets
        | Continue assets' offset' =>
            rarity_loop fuel' contract_address limit assets' offset'
        end
      else ret assets
  end.

(** [NFTTool.calculate_rarity_scores(contract_address, limit)]: the value
    returned is a Python value; the function ends without a [return]
    statement, which gives [None]. *)
Definition calculate_rarity_scores_fuel (fuel : nat) (contract_address : str)
    (limit : Z) : M world json :=
  await assets <- rarity_loop fuel contract_address limit [] 0 in
  match assets with
  | [] => raise (ToolException (py "Failed to fetch assets for rarity calculation"))
  | _ :: _ => ret JNull
  end.

Definition calculate_rarity_scores (contract_address : str) (limit : Z)
  : M world json :=
  calculate_rarity_scores_fuel (Z.to_nat limit) contract_address limit.

(** The keyword arguments [execute] reads; [None] is a key that is absent
    (for [token_id], also one that is [None]). *)
Record kwargs := mk_kwargs {
  kw_include_rarity : option bool;
  kw_limit : option Z;
  kw_include_sales : option bool;
  kw_days : option Z;
  kw_token_id : option Z
}.

(** The [result] dictionary of [execute]; a key that was not set is
    [None]. *)
Record nft_result := mk_nft_result {
  collection_stats : value;
  rarity_analysis : option json;
  sales_history : option value;
  price_analysis : option value;
  token_metadata : option value
}.

Definition flag (o : option bool) : bool :=
  match o with Some b => b | None => false end.

(** The [try] block of [NFTTool.execute]. *)
Definition execute_body (contract_address : str) (kw : kwargs)
  : M world (tool_envelope nft_result) :=
  await _ <- validate_input contract_address in
  await stats <- get_collection_stats contract_address in
  await rarity <-
    (if flag (kw_include_rarity kw)
     then
       let limit := default NFT_ANALYSIS_LIMIT (kw_limit kw) in
       await r <- calculate_rarity_scores contract_address limit in
       ret (Some r)
     else ret None) in
  await sales <-
    (if flag (kw_include_sales kw)
     then
       let days := default 30%Z (kw_days kw) in
       await history <- get_sales_history contract_address days in
       await analysis <- analyze_price_trends history in
       ret (Some history, Some analysis)
     else ret (None, None)) in
  await metadata <-
    (match kw_token_id kw with
     | Some token_id =>
         await m <- get_token_metadata contract_address token_id in
         ret (Some m)
     | None => ret None
     end) in
  format_output NAME
    (mk_nft_result stats rarity (fst sales) (snd sales) metadata).

(** [NFTTool.execute(contract_address, **kwargs)] *)
Definition execute (contract_address : str) (kw : kwargs)
  : M world (tool_envelope nft_result) :=
  try_except (execute_body contract_address kw) (handle_error NAME).

End NFTTool.

End Tools.

(** ** agent/core.py: the conversation history *)

Module History.

Import Memory.

(** [Web3Agent.get_conversation_history]: the transcript as pairs of a
    role and a content. *)
Definition get_conversation_history (memory : EnhancedConversationMemory)
  : list (str * str) :=
  map (fun msg =>
         match msg with
         | HumanMessage content => (py "user", content)
         | AIMessage content => (py "assistant", content)
         end)
      (chat_memory memory).

(** The inputs and outputs of the [save_context] calls made after the
    last [clear], read off the calls. *)
Definition turns_since_clear (ops : list memory_op) : list (str * str) :=
  fold_left (fun turns op =>
               match op with
               | OpSaveContext input output => turns ++ [(input, output)]
               | OpClearMemory => []
               end)
            ops [].

(** The two entries that one [save_context] call shows as in the
    history. *)
Definition turn_entries (turn : str * str) : list (str * str) :=
  [(py "user", fst turn); (py "assistant", snd turn)].

(** The stored address, when there is one, is a lower-case token of the
    address shape. *)
Definition stored_ok (m : EnhancedConversationMemory) : Prop :=
  match last_address (entity_context m) with
  | Some a => address_shaped a = true /\ lower a = a
  | None => True
  end.

End History.

(** ** utils/api.py: the rest of [APIHandler] *)

Module ApiMore.

Import Api.

Section Clock.

Variable time : Type.

(** [APIHandler.initialize_rate_limiters(rate_limits)], the mapping given
    as its items: every name gets a new limiter. *)
Definition initialize_rate_limiters (self : APIHandler time)
    (rate_limits : list (string * Z)) : APIHandler time :=
  fold_left (fun handler item =>
               mk_handler time (api_key time handler)
                 (<[fst item := new_limiter time (snd item)]>
                    (rate_limiters time handler)))
            rate_limits self.

(** [APIHandler.cleanup]: [self.rate_limiters.clear()]. *)
Definition cleanup (self : APIHandler time) : APIHandler time :=
  mk_handler time (api_key time self) ∅.

(** Of a list that runs along the calls, the entries of the calls for
    one key. *)
Fixpoint select_key {A : Type} (key : string) (calls : list (string * time))
    (xs : list A) : list A :=
  match calls, xs with
  | (k, _) :: calls', x :: xs' =>
      if decide (k = key)
      then x :: select_key key calls' xs'
      else select_key key calls' xs'
  | _, _ => []
  end.

(** The calls for one key. *)
Fixpoint calls_for (key : string) (calls : list (string * time))
  : list (string * time) :=
  match calls with
  | [] => []
  | (k, now) :: calls' =>
      if decide (k = key)
      then (k, now) :: calls_for key calls'
      else calls_for key calls'
  end.

End Clock.

(** The exception that the handlers of the retry loop see in an attempt,
    if one is raised. *)
Definition raised_in (o : attempt_outcome) : option raised :=
  match o with
  | Raised r => Some r
  | Responded response =>
      if bad_status (status response)
      then match read_text response with inl r => Some r | inr _ => None end
      else match read_json response with
           | JsonOk _ => None
           | JsonValueError =>
               match read_text response with inl r => Some r | inr _ => None end
           | JsonRaised r => Some r
           end
  end.

(** The requests and sleeps of [n] attempts that all raise, from attempt
    [attempt] on: a sleep of [retry_delay * (attempt + 1)] seconds after
    every attempt but the last. *)
Fixpoint backoff_events (retry_delay : Z) (n attempt : nat) : list event :=
  match n with
  | 0 => []
  | 1 => [Request attempt]
  | S n' =>
      Request attempt :: Sleep (retry_delay * (Z.of_nat attempt + 1))
      :: backoff_events retry_delay n' (S attempt)
  end.

Definition is_request (e : event) : bool :=
  match e with Request _ => true | Sleep _ => false end.

(** The number of requests among the events. *)
Definition requests_sent (events : list event) : nat :=
  length (List.filter is_request events).

End ApiMore.

(** ** tools/nft.py: [get_collection_stats] and its cache *)

Module NftStats.

Import Api Tools.
Local Open Scope coroutine_scope.

(** [d[key]] on what an envelope carries as its data. *)
Definition payload_subscript (d : payload) (key : str) : result json :=
  match d with
  | PJson (JDict items) =>
      match dict_get key items with
      | Some v => Ok v
      | None => Raise (KeyError (py "'" ++ key ++ py "'"))
      end
  | PJson (JList _) =>
      Raise (TypeError (py "list indices must be integers or slices, not str"))
  | PJson (JStr _) | PText _ =>
      Raise (TypeError (py "string indices must be integers, not 'str'"))
  | PJson v =>
      Raise (TypeError (py "'" ++ type_name v ++ py "' object is not subscriptable"))
  end.

(** [v.get(key)] on a value: [None] for a key that a [dict] lacks. *)
Definition json_get (v : json) (key : str) : result json :=
  match v with
  | JDict items =>
      Ok (match dict_get key items with Some x => x | None => JNull end)
  | _ =>
      Raise (AttributeError
               (py "'" ++ type_name v ++ py "' object has no attribute 'get'"))
  end.

(** The keys of the result of [get_collection_stats], in their order. *)
Definition STATS_KEYS : list str :=
  [py "floor_price"; py "total_supply"; py "num_owners"; py "total_volume";
   py "average_price"; py "market_cap"; py "one_day_volume";
   py "one_day_sales"; py "one_day_average_price"; py "seven_day_volume";
   py "seven_day_sales"; py "seven_day_average_price"].

(** The [result] dictionary: for every key, [stats.get(key)]. *)
Fixpoint stats_result (stats : json) (keys : list str)
  : result (list (str * json)) :=
  match keys with
  | [] => Ok []
  | key :: keys' =>
      match json_get stats key with
      | Raise e => Raise e
      | Ok v =>
          match stats_result stats keys' with
          | Raise e => Raise e
          | Ok rest => Ok ((key, v) :: rest)
          end
      end
  end.

(** [self.cache_ttl] seconds as microseconds, the unit of the clock
    values of [datetime.now()]. *)
Definition CACHE_TTL : Z := 300 * 1000000.

Section Stats.

(** The world outside the tool, with its clock [datetime.now()] and the
    upstream behind [make_request]; the tool adds its cache. *)
Variable outside : Type.
Variable now : M outside Z.
Variable make_request : request -> M outside (option envelope).

Record tool_world := mk_tool_world {
  cache : gmap str (Z * list (str * json));
  outside_world : outside
}.

(** A coroutine of the outside world run from inside the tool. *)
Definition lift {A : Type} (m : M outside A) : M tool_world A :=
  fun w =>
    (fst (m (outside_world w)),
     mk_tool_world (cache w) (snd (m (outside_world w)))).

(** [self.cache[key] = entry] *)
Definition cache_set (key : str) (entry : Z * list (str * json))
  : M tool_world unit :=
  fun w => (Ok tt, mk_tool_world (<[key := entry]> (cache w)) (outside_world w)).

Definition cache_key (contract_address : str) : str :=
  py "stats_" ++ contract_address.

(** The part of [get_collection_stats] behind the cache test: the request
    and the making and storing of the result. *)
Definition fetch_collection_stats (contract_address : str)
  : M tool_world (list (str * json)) :=
  let url :=
    OPENSEA_API ++ py "/collection/" ++ contract_address ++ py "/stats" in
  await response <- lift (make_request (mk_request url [])) in
  match response with
  | None => raise (TypeError (py "'NoneType' object is not subscriptable"))
  | Some response =>
      if negb (success response) then
        match error response with
        | Some message =>
            raise (ToolException
                     (py "Failed to fetch collection stats: " ++ message))
        | None => raise (KeyError (py "'error'"))
        end
      else
        match data response with
        | None => raise (KeyError (py "'data'"))
        | Some d =>
            match payload_subscript d (py "stats") with
            | Raise e => raise e
            | Ok stats =>
                match stats_result stats STATS_KEYS with
                | Raise e => raise e
                | Ok result =>
                    await timestamp <- lift now in
                    await _ <- cache_set (cache_key contract_address)
                                         (timestamp, result) in
                    ret result
                end
            end
        end
  end.

(** The body of [NFTTool.get_collection_stats(contract_address)]. *)
Definition get_collection_stats_body (contract_address : str)
  : M tool_world (list (str * json)) :=
  fun w =>
    match cache w !! cache_key contract_address with
    | Some cached_data =>
        (await current <- lift now in
         if (current - fst cached_data <? CACHE_TTL)%Z
         then ret (snd cached_data)
         else fetch_collection_stats contract_address) w
    | None => fetch_collection_stats contract_address w
    end.

(** [NFTTool.get_collection_stats], under [@retry_on_failure()]. *)
Definition get_collection_stats (contract_address : str)
  : M tool_world (list (str * json)) :=
  retry_on_failure 3 (get_collection_stats_body contract_address).

End Stats.

End NftStats.

(** ** Sample inputs *)

Module Samples.

Import OutputParser.

Definition DQ : ascii := ascii_of_nat 34.

(** A model output with a tool call after a draft of the answer, and the
    answer given twice. *)
Definition final_answer_text : str :=
  py "Action: TokenTool" ++ [LF] ++ py "Action Input: BTC" ++ [LF]
  ++ py "Final Answer: draft" ++ [LF] ++ py "Final Answer:  BTC is up " ++ [LF].

(** A tool call whose input is a JSON object written on three lines. *)
Definition multiline_action_text : str :=
  py "Action: NFTTool" ++ [LF]
  ++ py "Action Input: {" ++ [LF]
  ++ [DQ] ++ py "contract_address" ++ [DQ] ++ py ": "
  ++ [DQ] ++ py "0xabc" ++ [DQ] ++ [LF]
  ++ py "}".

(** The address of the specification's example, as a user types it and
    in lower case. *)
Definition address_upper : str := py "0xABCDEF0123456789ABCDEF0123456789ABCDEF01".
Definition address_lower : str := py "0xabcdef0123456789abcdef0123456789abcdef01".

Definition balance_query : str := py "check balance of " ++ address_upper.

(** A memory that has seen the example address. *)
Definition memory_with_address : Memory.EnhancedConversationMemory :=
  Memory.save_context Memory.new_memory balance_query (py "Balance: 1 ETH").

(** Operations on a memory after an address was seen. *)
Definition later_ops : list Memory.memory_op :=
  [Memory.OpClearMemory;
   Memory.OpSaveContext (py "what is gas") (py "A fee.");
   Memory.OpClearMemory].

(** Follow-up queries. *)
Definition followup_query : str := py "what about its transactions".
Definition address_word_query : str := py "what is the address balance".
Definition the_balance_query : str := py "check the balance of " ++ address_upper.

(** Calls on a limiter of ten requests per second, with clock values in
    thousandths of a second. *)
Definition limiter_calls : list (string * spec_float) :=
  [("opensea"%string, Api.Double.millis 1000000);
   ("opensea"%string, Api.Double.millis 1000050);
   ("etherscan"%string, Api.Double.millis 1000060);
   ("opensea"%string, Api.Double.millis 1000200)].

(** An upstream that answers every request with 404 and a text body. *)
Definition not_found_transport (attempt : nat) : Api.attempt_outcome :=
  Api.Responded
    (Api.mk_response 404 (inr (py "Not Found")) Api.JsonValueError).

End Samples.

(** ** Further sample inputs *)

Module MoreSamples.

Import OutputParser.

(** A character of a plain tool name: no white space and no dollar
    sign. *)
Definition name_char (c : ascii) : bool :=
  negb (isspace c) && (if ascii_dec c "$"%char then false else true).

Definition not_line_feed (c : ascii) : bool :=
  if ascii_dec c LF then false else true.

(** The tool call of the system prompt's example: one line of JSON. *)
Definition price_input : str :=
  py "{" ++ [Samples.DQ] ++ py "command" ++ [Samples.DQ] ++ py ": "
  ++ [Samples.DQ] ++ py "price" ++ [Samples.DQ] ++ py ", "
  ++ [Samples.DQ] ++ py "symbol" ++ [Samples.DQ] ++ py ": "
  ++ [Samples.DQ] ++ py "BTC" ++ [Samples.DQ] ++ py "}".

Definition price_call_text : str :=
  py "Action: " ++ py "TokenTool" ++ [LF] ++ py "Action Input: " ++ price_input.

(** An upstream with one page of two assets, in a world that counts the
    pages served. *)
Definition one_page_upstream (req : Tools.request)
  : Tools.M (list nat) (option Api.envelope) :=
  fun w =>
    match w with
    | [] =>
        (Ok (Some (Api.mk_envelope true
                     (Some (Api.PJson
                              (Api.JDict [(py "assets",
                                           Api.JList [Api.JInt 1; Api.JInt 2])])))
                     None None (Some 200%Z))), [1])
    | _ =>
        (Ok (Some (Api.mk_envelope true (Some (Api.PJson (Api.JDict [])))
                     None None (Some 200%Z))), w)
    end.

(** An upstream that answers every request with a failure envelope. *)
Definition failing_upstream (req : Tools.request)
  : Tools.M unit (option Api.envelope) :=
  Tools.ret (Some (Api.mk_envelope false None (Some (py "HTTP 500"))
                     (Some (py "")) (Some 500%Z))).

(** An upstream that never answers in time. *)
Definition timeout_transport (attempt : nat) : Api.attempt_outcome :=
  Api.Raised Api.TimeoutError.


Definition opensea_assets_url : str := py "https://api.opensea.io/api/v1/assets".

(** A clock in microseconds that is one second later at every reading;
    the outside world is the time of the next reading. *)
Definition ticking_clock : Tools.M Z Z :=
  fun t => (Ok t, (t + 1000000)%Z).

(** An upstream that answers with the statistics of a collection, of
    which it knows the floor price only. *)
Definition stats_upstream (req : Tools.request)
  : Tools.M Z (option Api.envelope) :=
  Tools.ret
    (Some (Api.mk_envelope true
             (Some (Api.PJson
                      (Api.JDict
                         [(py "stats",
                           Api.JDict [(py "floor_price", Api.JInt 2)])])))
             None None (Some 200%Z))).

(** An upstream that is down. *)
Definition down_upstream (req : Tools.request)
  : Tools.M Z (option Api.envelope) :=
  Tools.ret (Some (Api.mk_envelope false None (Some (py "HTTP 500"))
                     (Some (py "")) (Some 500%Z))).

(** What the tool stores and returns for [stats_upstream]. *)
Definition floor_price_stats : list (str * Api.json) :=
  (py "floor_price", Api.JInt 2)
  :: List.map (fun key => (key, Api.JNull)) (List.tl NftStats.STATS_KEYS).

(** A tool that has nothing cached, at second 7; and one that cached the
    statistics of the example address at second 7, seen at second 100. *)
Definition empty_cache_world : NftStats.tool_world Z :=
  NftStats.mk_tool_world Z ∅ 7000000%Z.

Definition cached_world : NftStats.tool_world Z :=
  NftStats.mk_tool_world Z
    {[ NftStats.cache_key Samples.address_lower
       := (7000000%Z, floor_price_stats) ]}
    100000000%Z.

End MoreSamples.

(** * Properties *)

(** ** Python strings *)

Module PyFacts.

Lemma startswith_app (p r : str) : startswith p (p ++ r) = true.
Proof.
  induction p as [|a p IH]; simpl; [reflexivity|].
  destruct (ascii_dec a a); [exact IH|congruence].
Qed.

Lemma startswith_inv (p s : str) :
  startswith p s = true -> exists r, s = p ++ r.
Proof.
  revert s. induction p as [|a p IH]; intros s H; simpl in *.
  - exists s. reflexivity.
  - destruct s as [|b s]; [discriminate|].
    destruct (ascii_dec a b) as [->|]; [|discriminate].
    destruct (IH _ H) as [r ->]. exists r. reflexivity.
Qed.

Lemma find_unfold (sub s : str) :
  find sub s =
  if startswith sub s then Some 0
  else match s with
       | [] => None
       | _ :: s' => option_map S (find sub s')
       end.
Proof. destruct s; reflexivity. Qed.

(** [find] gives an index at which the text occurs. *)
Lemma find_Some (sub s : str) (i : nat) :
  find sub s = Some i -> exists a b, s = a ++ sub ++ b /\ length a = i.
Proof.
  revert i. induction s as [|c s IH]; intros i H; rewrite find_unfold in H.
  - destruct (startswith sub []) eqn:E; [|discriminate].
    injection H as <-. apply startswith_inv in E as [r ->].
    exists [], r. split; reflexivity.
  - destruct (startswith sub (c :: s)) eqn:E.
    + injection H as <-. apply startswith_inv in E as [r Hr].
      exists [], r. rewrite Hr. split; reflexivity.
    + destruct (find sub s) as [j|] eqn:F; simpl in H; [|discriminate].
      injection H as <-.
      destruct (IH j eq_refl) as (a & b & -> & Hl).
      exists (c :: a), b. split; [reflexivity|simpl; lia].
Qed.

(** No occurrence starts before the index [find] gives. *)
Lemma find_first (sub s a b : str) (i : nat) :
  find sub s = Some i -> s = a ++ sub ++ b -> i <= length a.
Proof.
  revert s i. induction a as [|c a IH]; intros s i H ->; rewrite find_unfold in H.
  - simpl in H. rewrite startswith_app in H. injection H as <-. simpl. lia.
  - destruct (startswith sub ((c :: a) ++ sub ++ b)).
    + injection H as <-. lia.
    + simpl in H. destruct (find sub (a ++ sub ++ b)) as [j|] eqn:F;
        simpl in H; [|discriminate].
      injection H as <-. specialize (IH _ _ F eq_refl). simpl. lia.
Qed.

Lemma find_None (sub s a b : str) :
  find sub s = None -> s <> a ++ sub ++ b.
Proof.
  revert s. induction a as [|c a IH]; intros s H ->; rewrite find_unfold in H.
  - simpl in H. rewrite startswith_app in H. discriminate.
  - destruct (startswith sub ((c :: a) ++ sub ++ b)); [discriminate|].
    simpl in H. destruct (find sub (a ++ sub ++ b)) eqn:F; [discriminate|].
    exact (IH _ F eq_refl).
Qed.

Lemma find_occurrence (sub a b : str) :
  exists i, find sub (a ++ sub ++ b) = Some i /\ i <= length a.
Proof.
  destruct (find sub (a ++ sub ++ b)) as [i|] eqn:F.
  - exists i. split; [reflexivity|]. eapply find_first; eauto.
  - exfalso. eapply find_None; eauto.
Qed.

Lemma contains_occurrence (sub a b : str) :
  contains sub (a ++ sub ++ b) = true.
Proof.
  unfold contains. destruct (find_occurrence sub a b) as (i & -> & _).
  reflexivity.
Qed.

Lemma contains_false (sub s a b : str) :
  contains sub s = false -> s <> a ++ sub ++ b.
Proof.
  unfold contains. destruct (find sub s) eqn:F; [discriminate|].
  intros _. eapply find_None; eauto.
Qed.

(** Two lists with a common extension: the shorter front is a prefix of
    the longer. *)
Lemma app_eq_le {A : Type} (a b c d : list A) :
  a ++ b = c ++ d -> length a <= length c ->
  exists x, c = a ++ x /\ b = x ++ d.
Proof.
  revert c. induction a as [|h a IH]; intros c H L.
  - exists c. split; [reflexivity|exact H].
  - destruct c as [|h' c]; simpl in L; [lia|].
    simpl in H. injection H as <- H.
    destruct (IH c H) as (x & -> & ->); [lia|].
    exists x. split; reflexivity.
Qed.

(** Two occurrences of an unbordered text do not overlap. *)
Lemma unbordered_no_overlap (m a1 b1 a2 b2 : str) :
  unbordered m = true ->
  a1 ++ m ++ b1 = a2 ++ m ++ b2 ->
  length a1 < length a2 ->
  length a1 + length m <= length a2.
Proof.
  intros U E L.
  destruct (le_lt_dec (length a1 + length m) (length a2)) as [|C]; [assumption|].
  exfalso.
  destruct (app_eq_le _ _ _ _ E) as (x & -> & E1); [lia|].
  rewrite length_app in L, C.
  symmetry in E1.
  destruct (app_eq_le _ _ _ _ E1) as (y & Hm & E2); [lia|].
  assert (Ly : length y < length m) by (rewrite Hm, length_app; lia).
  assert (Hy : y = drop (length x) m).
  { rewrite Hm at 1. rewrite drop_app_length. reflexivity. }
  symmetry in E2.
  destruct (app_eq_le _ _ _ _ E2) as (z & Hz & _); [lia|].
  unfold unbordered in U. rewrite forallb_forall in U.
  specialize (U (length x)).
  rewrite <- Hy in U. rewrite Hz in U at 2. rewrite startswith_app in U.
  assert (In (length x) (seq 1 (length m - 1))) as I by (apply in_seq; lia).
  specialize (U I). discriminate.
Qed.

Lemma split_fuel_nonempty (fuel : nat) (sep s : str) :
  split_fuel fuel sep s <> [].
Proof.
  destruct fuel; cbn [split_fuel]; destruct (find sep s); discriminate.
Qed.

Lemma last_item_cons (x : str) (l : list str) :
  l <> [] -> last_item (x :: l) = last_item l.
Proof. unfold last_item. destruct l; [congruence|reflexivity]. Qed.

(** The last piece of a split is what follows the last occurrence of the
    separator, for a separator that cannot overlap itself. *)
Lemma split_fuel_last (sep suf : str) :
  sep <> [] -> unbordered sep = true -> find sep suf = None ->
  forall (fuel : nat) (pre : str),
    length (pre ++ sep ++ suf) <= fuel ->
    last_item (split_fuel fuel sep (pre ++ sep ++ suf)) = suf.
Proof.
  intros Hne U Hsuf. induction fuel as [|fuel IH]; intros pre L.
  - destruct sep; [congruence|]. rewrite !length_app in L. simpl in L. lia.
  - cbn [split_fuel].
    destruct (find_occurrence sep pre suf) as (i & F & Li). rewrite F.
    rewrite last_item_cons by apply split_fuel_nonempty.
    destruct (find_Some _ _ _ F) as (a & b & E & La).
    assert (Hdrop : drop (i + length sep) (pre ++ sep ++ suf) = b).
    { rewrite E, app_assoc. rewrite <- La, <- length_app.
      apply drop_app_length. }
    rewrite Hdrop. clear Hdrop.
    destruct (Nat.eq_dec i (length pre)) as [Heq|Hneq].
    + symmetry in E. destruct (app_eq_le _ _ _ _ E) as (x & Hx & E'); [lia|].
      assert (x = []) as ->.
      { apply (f_equal (@length _)) in Hx. rewrite length_app in Hx.
        destruct x; [reflexivity|simpl in Hx; lia]. }
      simpl in E'. apply app_inv_head in E'. subst b.
      destruct fuel; cbn [split_fuel]; rewrite Hsuf; reflexivity.
    + symmetry in E.
      assert (length a + length sep <= length pre) as Lo.
      { eapply unbordered_no_overlap; eauto. lia. }
      assert (E2 : (a ++ sep) ++ b = pre ++ sep ++ suf).
      { rewrite <- app_assoc. exact E. }
      destruct (app_eq_le _ _ _ _ E2) as (x & Hx & Hb).
      { rewrite length_app. lia. }
      subst b.
      apply IH.
      rewrite Hx in L. rewrite !length_app in L. rewrite !length_app.
      destruct sep; [congruence|]. simpl in *. lia.
Qed.

Lemma split_last (sep pre suf : str) :
  sep <> [] -> unbordered sep = true -> find sep suf = None ->
  last_item (split sep (pre ++ sep ++ suf)) = suf.
Proof.
  intros. unfold split. apply split_fuel_last; auto.
Qed.

(** *** [strip] *)

Lemma lstrip_app_nonspace (pre r : str) (c : ascii) :
  isspace c = false -> lstrip (pre ++ c :: r) = lstrip pre ++ c :: r.
Proof.
  intros Hc. induction pre as [|p pre IH]; simpl.
  - rewrite Hc. reflexivity.
  - destruct (isspace p); [exact IH|reflexivity].
Qed.

Lemma rstrip_app_nonspace (a b : str) (c : ascii) :
  isspace c = false -> rstrip ((a ++ [c]) ++ b) = (a ++ [c]) ++ rstrip b.
Proof.
  intros Hc. unfold rstrip.
  rewrite rev_app_distr, rev_app_distr. simpl.
  rewrite lstrip_app_nonspace by exact Hc.
  rewrite rev_app_distr. simpl. rewrite rev_involutive. reflexivity.
Qed.

Lemma lstrip_suffix (s : str) : exists w, s = w ++ lstrip s.
Proof.
  induction s as [|c s [w IH]]; simpl.
  - exists []. reflexivity.
  - destruct (isspace c).
    + exists (c :: w). simpl. rewrite <- IH. reflexivity.
    + exists []. reflexivity.
Qed.

Lemma rstrip_prefix (s : str) : exists w, s = rstrip s ++ w.
Proof.
  unfold rstrip. destruct (lstrip_suffix (rev s)) as [w H].
  exists (rev w). rewrite <- rev_app_distr, <- H, rev_involutive. reflexivity.
Qed.

Lemma lstrip_idem (s : str) : lstrip (lstrip s) = lstrip s.
Proof.
  induction s as [|c s IH]; simpl; [reflexivity|].
  destruct (isspace c) eqn:E; [exact IH|]. simpl. rewrite E. reflexivity.
Qed.

Lemma rstrip_idem (s : str) : rstrip (rstrip s) = rstrip s.
Proof.
  unfold rstrip. rewrite rev_involutive, lstrip_idem. reflexivity.
Qed.

Lemma strip_rstrip (s : str) : strip (rstrip s) = strip s.
Proof. unfold strip. rewrite rstrip_idem. reflexivity. Qed.

(** Stripping a text around a marker that starts and ends with a
    character that is not white space. *)
Lemma strip_around (pre suf mid : str) (c1 c2 : ascii) :
  isspace c1 = false -> isspace c2 = false ->
  strip (pre ++ (c1 :: mid ++ [c2]) ++ suf)
  = lstrip pre ++ (c1 :: mid ++ [c2]) ++ rstrip suf.
Proof.
  intros H1 H2. unfold strip.
  assert (E : pre ++ (c1 :: mid ++ [c2]) ++ suf
              = ((pre ++ c1 :: mid) ++ [c2]) ++ suf).
  { repeat (rewrite <- app_assoc; simpl). reflexivity. }
  rewrite E, rstrip_app_nonspace by exact H2.
  repeat (rewrite <- app_assoc; simpl).
  rewrite lstrip_app_nonspace by exact H1.
  repeat (rewrite <- app_assoc; simpl). reflexivity.
Qed.

End PyFacts.

(** ** The output parser *)

Module ParserFacts.

Import PyFacts OutputParser Samples.

Lemma FINAL_ANSWER_shape :
  FINAL_ANSWER = ("F"%char :: py "inal Answer" ++ [":"%char]).
Proof. reflexivity. Qed.

Lemma FINAL_ANSWER_unbordered : unbordered FINAL_ANSWER = true.
Proof. reflexivity. Qed.

Lemma FINAL_ANSWER_nonempty : FINAL_ANSWER <> [].
Proof. discriminate. Qed.

(** Behind the last occurrence of a marker there is no occurrence. *)
Lemma nothing_behind_last (m pre suf : str) :
  m <> [] ->
  (forall pre' suf',
      pre ++ m ++ suf = pre' ++ m ++ suf' -> length pre' <= length pre) ->
  find m suf = None.
Proof.
  intros Hne Hlast. destruct (find m suf) as [i|] eqn:F; [|reflexivity].
  exfalso. destruct (find_Some _ _ _ F) as (a & b & -> & _).
  specialize (Hlast ((pre ++ m) ++ a) b).
  rewrite <- !app_assoc in Hlast. specialize (Hlast eq_refl).
  rewrite !length_app in Hlast. destruct m; [congruence|]. simpl in Hlast. lia.
Qed.

(** An occurrence of an unbordered marker with none behind it is the last
    one. *)
Lemma last_when_nothing_behind (m pre suf : str) :
  unbordered m = true -> find m suf = None ->
  forall pre' suf',
    pre ++ m ++ suf = pre' ++ m ++ suf' -> length pre' <= length pre.
Proof.
  intros U F pre' suf' E.
  destruct (le_lt_dec (length pre') (length pre)) as [|L]; [assumption|].
  exfalso.
  pose proof (unbordered_no_overlap _ _ _ _ _ U E L) as Lo.
  assert (E2 : (pre ++ m) ++ suf = pre' ++ m ++ suf').
  { rewrite <- app_assoc. exact E. }
  destruct (app_eq_le _ _ _ _ E2) as (x & _ & Hs).
  { rewrite length_app. lia. }
  exact (find_None _ _ _ _ F Hs).
Qed.

Lemma find_None_rstrip (m s : str) :
  find m s = None -> find m (rstrip s) = None.
Proof.
  intros F. destruct (find m (rstrip s)) as [i|] eqn:G; [|reflexivity].
  exfalso. destruct (find_Some _ _ _ G) as (a & b & E & _).
  destruct (rstrip_prefix s) as [w Hw].
  apply (find_None m s a (b ++ w) F).
  rewrite Hw at 1. rewrite E, <- !app_assoc. reflexivity.
Qed.

Section Parser.

Variable J : Type.
Variable json_loads : str -> option J.

(** C2.  A text that holds the marker [Final Answer:] parses to a final
    answer whose text is what follows the last occurrence of the marker,
    stripped of surrounding white space, whatever else the text holds
    ([Action:] and [Action Input:] markers included). *)
Theorem parse_final_answer (text pre suf : str) :
  text = pre ++ FINAL_ANSWER ++ suf ->
  (forall pre' suf',
      text = pre' ++ FINAL_ANSWER ++ suf' -> length pre' <= length pre) ->
  parse J json_loads text = Ok (AgentFinish (strip suf) (strip text)).
Proof.
  intros -> Hlast.
  pose proof (nothing_behind_last _ _ _ FINAL_ANSWER_nonempty Hlast) as F.
  unfold parse.
  assert (Hs : strip (pre ++ FINAL_ANSWER ++ suf)
               = lstrip pre ++ FINAL_ANSWER ++ rstrip suf).
  { rewrite FINAL_ANSWER_shape. apply strip_around; reflexivity. }
  rewrite Hs.
  rewrite contains_occurrence.
  rewrite split_last.
  - rewrite strip_rstrip. reflexivity.
  - exact FINAL_ANSWER_nonempty.
  - exact FINAL_ANSWER_unbordered.
  - apply find_None_rstrip. exact F.
Qed.

End Parser.

Lemma parse_final_answer_witness :
  parse unit (fun _ => None) final_answer_text
  = Ok (AgentFinish (py "BTC is up") (strip final_answer_text)).
Proof.
  apply (parse_final_answer unit (fun _ => None) final_answer_text
           (py "Action: TokenTool" ++ [LF] ++ py "Action Input: BTC" ++ [LF]
            ++ py "Final Answer: draft" ++ [LF])
           (py "  BTC is up " ++ [LF])).
  - reflexivity.
  - intros pre' suf' E.
    apply (last_when_nothing_behind FINAL_ANSWER _ (py "  BTC is up " ++ [LF])
             eq_refl eq_refl pre' suf').
    exact E.
Defined.

(** C3.  On a tool call whose input spans several lines the parser keeps
    the first line of the input only: here the opening brace, as a raw
    string, whatever [json.loads] would make of the whole object. *)
Theorem parse_multiline_action_input (J : Type) (json_loads : str -> option J) :
  parse J json_loads multiline_action_text
  = Ok (AgentAction (py "NFTTool") (InputStr (py "{")) multiline_action_text).
Proof. reflexivity. Qed.

End ParserFacts.

(** ** The conversation memory *)

Module MemoryFacts.

Import PyFacts Memory Samples.

Lemma lower_char_idem (c : ascii) : lower_char (lower_char c) = lower_char c.
Proof. destruct c as [[] [] [] [] [] [] [] []]; reflexivity. Qed.

Lemma is_hex_lower_char (c : ascii) : is_hex (lower_char c) = is_hex c.
Proof. destruct c as [[] [] [] [] [] [] [] []]; reflexivity. Qed.

Lemma lower_idem (s : str) : lower (lower s) = lower s.
Proof.
  unfold lower. rewrite map_map. apply map_ext. apply lower_char_idem.
Qed.

Lemma lower_app (a b : str) : lower (a ++ b) = lower a ++ lower b.
Proof. apply map_app. Qed.

Lemma forallb_is_hex_lower (s : str) :
  forallb is_hex (lower s) = forallb is_hex s.
Proof.
  induction s as [|c s IH]; simpl; [reflexivity|].
  rewrite is_hex_lower_char, IH. reflexivity.
Qed.

Lemma address_shaped_lower (tok : str) :
  address_shaped tok = true -> address_shaped (lower tok) = true.
Proof.
  destruct tok as [|c0 [|c1 digits]]; simpl; try discriminate.
  destruct (ascii_dec c0 "0") as [->|]; [|discriminate].
  destruct (ascii_dec c1 "x") as [->|]; [|discriminate].
  simpl. fold (lower digits).
  rewrite forallb_is_hex_lower. unfold lower. rewrite length_map.
  intros H. exact H.
Qed.

Lemma address_shaped_length (tok : str) :
  address_shaped tok = true -> length tok = 42.
Proof.
  destruct tok as [|c0 [|c1 digits]]; simpl; try discriminate.
  intros H. apply andb_true_iff in H as [H _].
  apply andb_true_iff in H as [_ H]. apply Nat.eqb_eq in H. lia.
Qed.

Lemma match_address_app (tok rest : str) :
  address_shaped tok = true -> match_address (tok ++ rest) = Some tok.
Proof.
  intros H. pose proof (address_shaped_length _ H) as L.
  destruct tok as [|c0 [|c1 digits]]; simpl in *; try discriminate.
  destruct (ascii_dec c0 "0") as [->|]; [|discriminate].
  destruct (ascii_dec c1 "x") as [->|]; [|discriminate].
  simpl in H. apply andb_true_iff in H as [H1 H2].
  assert (E : take 40 (digits ++ rest) = digits).
  { apply Nat.eqb_eq in H1. rewrite <- H1. apply take_app_length. }
  rewrite E, H1, H2. reflexivity.
Qed.

Lemma match_address_Some (s tok : str) :
  match_address s = Some tok ->
  address_shaped tok = true /\ exists rest, s = tok ++ rest.
Proof.
  destruct s as [|c0 [|c1 rest]]; simpl; try discriminate.
  destruct (ascii_dec c0 "0") as [->|]; [|discriminate].
  destruct (ascii_dec c1 "x") as [->|]; [|discriminate].
  destruct ((length (take 40 rest) =? 40) && forallb is_hex (take 40 rest))
    eqn:E; [|discriminate].
  intros [= <-]. split.
  - simpl. exact E.
  - exists (drop 40 rest). simpl. rewrite take_drop. reflexivity.
Qed.

(** The first match of the pattern heads what [findall] gives. *)
Lemma findall_fuel_first (pre tok suf : str) :
  address_shaped tok = true ->
  (forall i, i < length pre ->
             match_address (drop i (pre ++ tok ++ suf)) = None) ->
  forall fuel, length (pre ++ tok ++ suf) <= fuel ->
  exists rest, findall_fuel fuel (pre ++ tok ++ suf) = tok :: rest.
Proof.
  intros Hshape. induction pre as [|c pre IH]; intros Hnone fuel L.
  - simpl in *. pose proof (address_shaped_length _ Hshape) as Lt.
    destruct fuel as [|fuel]; [rewrite length_app in L; lia|].
    destruct tok as [|c0 tok']; [discriminate|].
    cbn [findall_fuel app]. change (c0 :: tok' ++ suf) with ((c0 :: tok') ++ suf).
    rewrite (match_address_app _ suf Hshape). eauto.
  - destruct fuel as [|fuel]; [simpl in L; lia|].
    cbn [findall_fuel app].
    pose proof (Hnone 0 ltac:(simpl; lia)) as H0.
    change (match_address (c :: pre ++ tok ++ suf) = None) in H0.
    rewrite H0. apply IH.
    + intros i Hi. apply (Hnone (S i)). simpl. lia.
    + simpl in L. lia.
Qed.

Lemma earlier_match_dec (s : str) (i : nat) :
  (forall k, k < i -> match_address (drop k s) = None)
  \/ (exists k tk, k < i /\ match_address (drop k s) = Some tk).
Proof.
  induction i as [|i [IH|(k & tk & Hk & Hm)]].
  - left. intros k Hk. lia.
  - destruct (match_address (drop i s)) as [tk|] eqn:E.
    + right. exists i, tk. split; [lia|exact E].
    + left. intros k Hk.
      destruct (Nat.eq_dec k i) as [->|]; [exact E|apply IH; lia].
  - right. exists k, tk. split; [lia|exact Hm].
Qed.

(** When the pattern matches somewhere, there is a first place where it
    does. *)
Lemma first_match_exists (s : str) (i : nat) (tok : str) :
  match_address (drop i s) = Some tok ->
  exists j tok', j <= i /\ match_address (drop j s) = Some tok'
                 /\ forall k, k < j -> match_address (drop k s) = None.
Proof.
  revert tok. induction i as [i IH] using lt_wf_ind. intros tok H.
  destruct (earlier_match_dec s i) as [Hall|(k & tk & Hk & Hm)].
  - exists i, tok. split; [lia|]. split; [exact H|exact Hall].
  - destruct (IH k Hk tk Hm) as (j & tok' & Hj & Hm' & Hfirst).
    exists j, tok'. split; [lia|]. split; assumption.
Qed.

Lemma save_context_keeps_set (m : EnhancedConversationMemory)
    (input output : str) :
  last_address (entity_context m) <> None ->
  last_address (entity_context (save_context m input output)) <> None.
Proof.
  intros H. unfold save_context.
  destruct (findall_addresses (lower input)); simpl; [exact H|discriminate].
Qed.

(** C5, what the code does in place of it.  The reset empties the
    transcript and leaves the stored address as it is: [clear] is the
    inherited one, which knows nothing of the entity context.  So no
    sequence of operations on the memory, resets included, clears an
    address once it is set. *)
Theorem clear_memory_keeps_address (m : EnhancedConversationMemory)
    (ops : list memory_op) :
  chat_memory (clear_memory m) = []
  /\ last_address (entity_context (clear_memory m))
     = last_address (entity_context m)
  /\ (last_address (entity_context m) <> None ->
      last_address (entity_context (apply_ops m ops)) <> None).
Proof.
  split; [reflexivity|]. split; [reflexivity|].
  revert m. induction ops as [|op ops IH]; intros m H; simpl.
  - exact H.
  - apply IH. destruct op as [i o|]; simpl.
    + apply save_context_keeps_set. exact H.
    + exact H.
Qed.

Lemma clear_memory_keeps_address_witness :
  last_address (entity_context (apply_ops memory_with_address later_ops))
  <> None.
Proof.
  apply (proj2 (proj2 (clear_memory_keeps_address memory_with_address
                         later_ops))).
  vm_compute. discriminate.
Defined.

(** C5 on the example address: after a reset of a memory that holds it
    the transcript is empty but the address is still stored. *)
Lemma clear_memory_counterexample :
  last_address (entity_context memory_with_address) = Some address_lower
  /\ chat_memory (clear_memory memory_with_address) = []
  /\ last_address (entity_context (clear_memory memory_with_address)) <> None.
Proof.
  split; [reflexivity|]. split; [reflexivity|]. vm_compute. discriminate.
Qed.

(** C6 (amended).  Saving a turn whose query holds a token of the address
    shape stores the first such token of the lower-cased query: the
    stored address is in lower case. *)
Theorem save_context_first_address (m : EnhancedConversationMemory)
    (query output pre tok suf : str) :
  query = pre ++ tok ++ suf ->
  address_shaped tok = true ->
  exists pre' tok' suf',
    lower query = pre' ++ tok' ++ suf'
    /\ address_shaped tok' = true
    /\ (forall k, k < length pre' ->
                  match_address (drop k (lower query)) = None)
    /\ lower tok' = tok'
    /\ last_address (entity_context (save_context m query output))
       = Some tok'.
Proof.
  intros -> Hshape.
  assert (Hat : match_address (drop (length pre) (lower (pre ++ tok ++ suf)))
                = Some (lower tok)).
  { rewrite !lower_app.
    replace (length pre) with (length (lower pre))
      by (unfold lower; apply length_map).
    rewrite drop_app_length. apply match_address_app.
    apply address_shaped_lower. exact Hshape. }
  destruct (first_match_exists _ _ _ Hat) as (j & tok' & Hj & Hm & Hfirst).
  destruct (match_address_Some _ _ Hm) as (Hshape' & rest & Hrest).
  set (lq := lower (pre ++ tok ++ suf)) in *.
  assert (Llq : j <= length lq).
  { unfold lq, lower. rewrite length_map, length_app. lia. }
  assert (Hsplit : lq = take j lq ++ tok' ++ rest).
  { rewrite <- Hrest. symmetry. apply take_drop. }
  assert (Ltake : length (take j lq) = j).
  { rewrite length_take. lia. }
  exists (take j lq), tok', rest.
  split; [exact Hsplit|]. split; [exact Hshape'|].
  split; [intros k Hk; apply Hfirst; lia|].
  split.
  - assert (E : tok' = lower (take 42 (drop j (pre ++ tok ++ suf)))).
    { unfold lower. rewrite <- firstn_map, <- skipn_map.
      fold (lower (pre ++ tok ++ suf)). fold lq. rewrite Hrest.
      rewrite <- (address_shaped_length _ Hshape').
      rewrite take_app_length. reflexivity. }
    rewrite E. apply lower_idem.
  - unfold save_context. fold lq.
    destruct (findall_fuel_first (take j lq) tok' rest Hshape') with
      (fuel := length lq) as [others Hall].
    + intros i Hi. rewrite <- Hsplit. apply Hfirst. lia.
    + rewrite <- Hsplit. lia.
    + unfold findall_addresses. rewrite <- Hsplit in Hall. rewrite Hall.
      reflexivity.
Qed.

Lemma save_context_first_address_witness :
  exists pre' tok' suf',
    lower balance_query = pre' ++ tok' ++ suf'
    /\ address_shaped tok' = true
    /\ (forall k, k < length pre' ->
                  match_address (drop k (lower balance_query)) = None)
    /\ lower tok' = tok'
    /\ last_address
         (entity_context (save_context new_memory balance_query (py "ok")))
       = Some tok'.
Proof.
  apply (save_context_first_address new_memory balance_query (py "ok")
           (py "check balance of ") address_upper []).
  - reflexivity.
  - reflexivity.
Defined.

(** C6 as stated fails: the address of the example is stored in lower
    case, not as the user wrote it. *)
Lemma save_context_case_counterexample :
  address_shaped address_upper = true
  /\ balance_query = py "check balance of " ++ address_upper
  /\ last_address
       (entity_context (save_context new_memory balance_query (py "ok")))
     = Some address_lower
  /\ last_address
       (entity_context (save_context new_memory balance_query (py "ok")))
     <> Some address_upper.
Proof.
  split; [reflexivity|]. split; [reflexivity|]. split; [reflexivity|].
  vm_compute. discriminate.
Qed.

(** C7 (amended).  With a stored address that is not empty, a query is
    rewritten exactly when its lower-cased text does not hold the word
    "address" and holds one of the cue texts "it", "that", "the", "this";
    the rewriting appends " for address " and the stored address.  Whether
    the query holds a token of the address shape plays no part. *)
Theorem format_query_rewrites (m : EnhancedConversationMemory)
    (query : str) (context : list (str * str)) (address : str) :
  last_address (entity_context m) = Some address ->
  address <> [] ->
  (contains (py "address") (lower query) = false ->
   existsb (fun word => contains word (lower query)) CUE_WORDS = true ->
   _format_query_with_context m query context
   = add_context (query ++ py " for address " ++ address) context)
  /\ (contains (py "address") (lower query) = true ->
      _format_query_with_context m query context = add_context query context)
  /\ (existsb (fun word => contains word (lower query)) CUE_WORDS = false ->
      _format_query_with_context m query context = add_context query context).
Proof.
  intros Hstored Hne. unfold _format_query_with_context. rewrite Hstored.
  assert (Ht : truthy (Some address) = true)
    by (destruct address; [congruence|reflexivity]).
  rewrite Ht. repeat split.
  - intros Ha Hc. rewrite Ha, Hc. reflexivity.
  - intros Ha. rewrite Ha. reflexivity.
  - intros Hc. rewrite Hc. rewrite andb_false_r. reflexivity.
Qed.

Lemma format_query_rewrites_witness :
  _format_query_with_context memory_with_address followup_query []
  = py "what about its transactions for address " ++ address_lower.
Proof.
  apply (proj1 (format_query_rewrites memory_with_address followup_query []
                  address_lower eq_refl ltac:(discriminate)));
    reflexivity.
Defined.

(** C7 as stated fails both ways.  A query without any token of the
    address shape and with the cue "the" is left as it is when it holds
    the word "address"; a query that holds such a token and the cue "the"
    is rewritten. *)
Lemma format_query_counterexample :
  (findall_addresses address_word_query = []
   /\ contains (py "the") (lower address_word_query) = true
   /\ last_address (entity_context memory_with_address) = Some address_lower
   /\ _format_query_with_context memory_with_address address_word_query []
      <> address_word_query ++ py " for address " ++ address_lower)
  /\ (findall_addresses the_balance_query = [address_upper]
      /\ _format_query_with_context memory_with_address the_balance_query []
         <> the_balance_query).
Proof.
  repeat split; try reflexivity; vm_compute; discriminate.
Qed.

End MemoryFacts.

(** ** The orchestration loop *)

Module ExecutorFacts.

Import OutputParser Memory Executor.

Section Loop.

Variable J : Type.
Variable json_loads : str -> option J.
Variable llm : nat -> prompt -> str.
Variable tools : list (str * (tool_input J -> str)).
Variable max_iterations : nat.
Variable handle_parsing_errors : bool.
Variable transcript : list message.
Variable query : str.

Local Abbreviation step' :=
  (step J json_loads llm tools max_iterations handle_parsing_errors
        transcript query).
Local Abbreviation run_steps' :=
  (run_steps J json_loads llm tools max_iterations handle_parsing_errors
             transcript query).
Local Abbreviation steps_left' := (steps_left J max_iterations).

Ltac step_cases r :=
  destruct r as [st sp k]; destruct st; unfold step, steps_left, terminal;
  cbn [state scratchpad renders];
  repeat match goal with
    | |- context [max_iterations <=? ?k] =>
        destruct (Nat.leb_spec max_iterations k)
    | |- context [parse ?A ?f ?raw] => destruct (parse A f raw) as [[]|]
    | |- context [?h && is_parsing_error ?e] =>
        destruct (h && is_parsing_error e)
    end;
  cbn [state scratchpad renders].

Lemma step_renders_le (r : run J) :
  renders r <= max_iterations -> renders (step' r) <= max_iterations.
Proof. step_cases r; lia. Qed.

Lemma step_terminal (r : run J) : terminal r = true -> step' r = r.
Proof. destruct r as [st sp k]; destruct st; try discriminate; reflexivity. Qed.

Lemma step_steps_left (r : run J) :
  renders r <= max_iterations -> terminal r = false ->
  steps_left' (step' r) < steps_left' r.
Proof. step_cases r; intros; try discriminate; lia. Qed.

Lemma steps_left_zero (r : run J) : steps_left' r = 0 -> terminal r = true.
Proof.
  destruct r as [st sp k]; destruct st; unfold steps_left, terminal;
    cbn [state renders]; intros; try reflexivity; lia.
Qed.

Lemma run_steps_renders_le (n : nat) (r : run J) :
  renders r <= max_iterations -> renders (run_steps' n r) <= max_iterations.
Proof.
  revert r. induction n as [|n IH]; intros r H; simpl; [exact H|].
  apply IH, step_renders_le, H.
Qed.

Lemma run_steps_terminal_fixed (n : nat) (r : run J) :
  terminal r = true -> run_steps' n r = r.
Proof.
  intros H. induction n as [|n IH]; simpl; [reflexivity|].
  rewrite step_terminal by exact H. exact IH.
Qed.

Lemma run_steps_add (a b : nat) (r : run J) :
  run_steps' (a + b) r = run_steps' b (run_steps' a r).
Proof.
  revert r. induction a as [|a IH]; intros r; simpl; [reflexivity|apply IH].
Qed.

(** Termination: with [steps_left] steps in hand the run reaches a
    terminal state. *)
Lemma run_steps_terminates (n : nat) (r : run J) :
  renders r <= max_iterations -> steps_left' r <= n ->
  terminal (run_steps' n r) = true.
Proof.
  revert r. induction n as [|n IH]; intros r Hr Hn; simpl.
  - apply steps_left_zero. lia.
  - destruct (terminal r) eqn:T.
    + rewrite step_terminal by exact T.
      rewrite run_steps_terminal_fixed by exact T. exact T.
    + apply IH; [apply step_renders_le, Hr|].
      pose proof (step_steps_left r Hr T). lia.
Qed.

(** The transitions, one by one. *)
Lemma step_render (sp : list scratch_entry) (k : nat) :
  k < max_iterations ->
  step' (mk_run RENDER_PROMPT sp k)
  = mk_run (INVOKE_MODEL J (mk_prompt (map fst tools) transcript query sp))
           sp (S k).
Proof.
  intros H. unfold step. cbn [state scratchpad renders].
  destruct (Nat.leb_spec max_iterations k); [lia|reflexivity].
Qed.

Lemma step_render_exhausted (sp : list scratch_entry) (k : nat) :
  max_iterations <= k ->
  step' (mk_run RENDER_PROMPT sp k) = mk_run (FAILED IterationExhausted) sp k.
Proof.
  intros H. unfold step. cbn [state scratchpad renders].
  destruct (Nat.leb_spec max_iterations k); [reflexivity|lia].
Qed.

Lemma step_invoke (p : prompt) (sp : list scratch_entry) (k : nat) :
  step' (mk_run (INVOKE_MODEL J p) sp k)
  = mk_run (PARSE_OUTPUT J (llm k p)) sp k.
Proof. reflexivity. Qed.

Lemma step_parse (raw : str) (sp : list scratch_entry) (k : nat) :
  step' (mk_run (PARSE_OUTPUT J raw) sp k)
  = match parse J json_loads raw with
    | Ok (AgentFinish answer _) => mk_run (DONE answer) sp k
    | Ok (AgentAction tool input log) =>
        mk_run (DISPATCH_TOOL J tool input log) sp k
    | Raise e =>
        if handle_parsing_errors && is_parsing_error e
        then mk_run RENDER_PROMPT
                    (sp ++ [mk_entry raw PARSE_ERROR_OBSERVATION]) k
        else mk_run (RAISED e) sp k
    end.
Proof. reflexivity. Qed.

Lemma step_dispatch (tool : str) (input : tool_input J) (log : str)
    (sp : list scratch_entry) (k : nat) :
  exists observation,
    step' (mk_run (DISPATCH_TOOL J tool input log) sp k)
    = mk_run RENDER_PROMPT (sp ++ [mk_entry log observation]) k.
Proof. eexists. reflexivity. Qed.

(** The first cycle: the prompt is rendered with an empty scratchpad, the
    model is called once, and its output is parsed. *)
Lemma first_cycle :
  0 < max_iterations ->
  run_steps' 3 (initial J)
  = step' (mk_run
             (PARSE_OUTPUT J
                (llm 1 (mk_prompt (map fst tools) transcript query [])))
             [] 1).
Proof.
  intros H. cbn [run_steps]. unfold initial.
  rewrite step_render by exact H. rewrite step_invoke. reflexivity.
Qed.

(** The only exception of the parser is its [ValueError], and the handler
    of parsing errors does not catch it. *)
Lemma parse_Raise (text : str) (e : exn) :
  parse J json_loads text = Raise e ->
  e = ValueError (py "Could not parse LLM output: " ++ strip text).
Proof.
  unfold parse. destruct (contains FINAL_ANSWER (strip text)); [discriminate|].
  destruct (action_match (strip text));
    [destruct (action_input_match (strip text))|];
    intros [= <-]; reflexivity.
Qed.

Lemma ValueError_not_parsing_error (msg : str) :
  is_parsing_error (ValueError msg) = false.
Proof. reflexivity. Qed.

(** A model whose every output is a tool call: each cycle takes four
    steps and renders one prompt, until the bound stops the run. *)
Lemma tool_call_cycles (sp : list scratch_entry) (d k : nat) :
  (forall i p, exists tool input log,
      parse J json_loads (llm i p) = Ok (AgentAction tool input log)) ->
  k + d = max_iterations ->
  exists sp',
    run_steps' (1 + 4 * d) (mk_run RENDER_PROMPT sp k)
    = mk_run (FAILED IterationExhausted) sp' max_iterations.
Proof.
  intros Hcall. revert sp k. induction d as [|d IH]; intros sp k Hk.
  - exists sp. change (1 + 4 * 0) with 1. cbn [run_steps].
    rewrite step_render_exhausted by lia.
    replace k with max_iterations by lia. reflexivity.
  - replace (1 + 4 * S d) with (4 + (1 + 4 * d)) by lia.
    rewrite run_steps_add.
    set (rest := 1 + 4 * d). cbn [run_steps].
    rewrite step_render by lia. rewrite step_invoke, step_parse.
    destruct (Hcall (S k) (mk_prompt (map fst tools) transcript query sp))
      as (tool & input & log & ->).
    destruct (step_dispatch tool input log sp (S k)) as [observation ->].
    subst rest. apply IH. lia.
Qed.

End Loop.

(** C1.  A run of the agent's executor ends in a terminal state and never
    renders more than five prompts, at any point of the run: a model that
    calls a tool every time is stopped in [FAILED] after exactly five
    prompts, and a first output with a final answer ends the run in
    [DONE].  But a first output that fails to parse ends the run after
    one prompt with the [ValueError] of the parser, which
    [handle_parsing_errors] does not catch: not in [FAILED] after five. *)
Theorem agent_run_parse_error_raises (J : Type) (json_loads : str -> option J)
    (llm : nat -> prompt -> str)
    (tools : list (str * (tool_input J -> str)))
    (transcript : list message) (query : str) :
  let final := agent_run J json_loads llm tools transcript query in
  let first := llm 1 (mk_prompt (map fst tools) transcript query []) in
  terminal final = true
  /\ (forall n,
        renders (run_steps J json_loads llm tools MAX_ITERATIONS
                   HANDLE_PARSING_ERRORS transcript query n (initial J))
        <= 5)
  /\ (raises (parse J json_loads first) = true ->
      state final
      = RAISED (ValueError (py "Could not parse LLM output: " ++ strip first))
      /\ renders final = 1)
  /\ (forall answer log,
        parse J json_loads first = Ok (AgentFinish answer log) ->
        state final = DONE answer /\ renders final = 1)
  /\ ((forall i p, exists tool input log,
          parse J json_loads (llm i p) = Ok (AgentAction tool input log)) ->
      state final = FAILED IterationExhausted /\ renders final = 5).
Proof.
  cbv zeta. split; [|split; [|split; [|split]]].
  - apply run_steps_terminates; cbn; lia.
  - intros n. apply (run_steps_renders_le J json_loads llm tools 5).
    cbn. lia.
  - intros Hbad. unfold agent_run.
    change (1 + 4 * MAX_ITERATIONS) with (3 + 18).
    rewrite run_steps_add.
    rewrite (first_cycle J json_loads llm tools MAX_ITERATIONS
               HANDLE_PARSING_ERRORS transcript query)
      by (unfold MAX_ITERATIONS; lia). rewrite step_parse.
    destruct (parse J json_loads _) as [a|e] eqn:E; [discriminate|].
    apply parse_Raise in E. subst e.
    rewrite ValueError_not_parsing_error, andb_false_r.
    rewrite run_steps_terminal_fixed by reflexivity. split; reflexivity.
  - intros answer log E. unfold agent_run.
    change (1 + 4 * MAX_ITERATIONS) with (3 + 18).
    rewrite run_steps_add.
    rewrite (first_cycle J json_loads llm tools MAX_ITERATIONS
               HANDLE_PARSING_ERRORS transcript query)
      by (unfold MAX_ITERATIONS; lia). rewrite step_parse, E.
    rewrite run_steps_terminal_fixed by reflexivity. split; reflexivity.
  - intros Hcall. unfold agent_run.
    destruct (tool_call_cycles J json_loads llm tools MAX_ITERATIONS
                HANDLE_PARSING_ERRORS transcript query [] 5 0 Hcall eq_refl)
      as [sp' H].
    unfold initial. change (1 + 4 * MAX_ITERATIONS) with (1 + 4 * 5).
    rewrite H. split; reflexivity.
Qed.

Lemma agent_run_parse_error_raises_witness :
  let final :=
    agent_run unit (fun _ => None) (fun _ _ => py "I am not sure.") [] []
              (py "price of BTC") in
  state final
  = RAISED (ValueError (py "Could not parse LLM output: I am not sure."))
  /\ renders final = 1.
Proof.
  apply (proj1 (proj2 (proj2 (agent_run_parse_error_raises unit
                                (fun _ => None)
                                (fun _ _ => py "I am not sure.") [] []
                                (py "price of BTC"))))).
  reflexivity.
Defined.

End ExecutorFacts.

(** ** The rate limiter and the request loop *)

Module ApiFacts.

Import Api Samples.

Section Clock.

Variable time : Type.
Variable tsub : time -> time -> time.
Variable tdiv : time -> time -> time.
Variable tlt : time -> time -> bool.
Variable one : time.
Variable to_float : Z -> option time.

Local Abbreviation check := (check_rate_limit time tsub tdiv tlt one to_float).
Local Abbreviation run := (run_calls time tsub tdiv tlt one to_float).
Local Abbreviation interval_of := (min_interval time tdiv one to_float).

Lemma check_requests_per_second (self : RateLimiter time) (now : time)
    (key : string) :
  requests_per_second time (snd (check self now key))
  = requests_per_second time self.
Proof.
  unfold check_rate_limit.
  destruct (last_request_time time self !! key); [|reflexivity].
  destruct (interval_of (requests_per_second time self)); [|reflexivity].
  destruct (tlt _ _); reflexivity.
Qed.

(** One call: it is let through and recorded, or it raises and leaves the
    limiter as it was. *)
Lemma check_outcome (self : RateLimiter time) (now : time) (key : string) :
  (exists u, fst (check self now key) = Ok u
             /\ snd (check self now key)
                = mk_limiter time (requests_per_second time self)
                    (<[key := now]> (last_request_time time self)))
  \/ (exists e, fst (check self now key) = Raise e
                /\ snd (check self now key) = self).
Proof.
  unfold check_rate_limit.
  destruct (last_request_time time self !! key); [|left; eauto].
  destruct (interval_of (requests_per_second time self)); [|right; eauto].
  destruct (tlt _ _); [right|left]; eauto.
Qed.

Lemma run_calls_cons (self : RateLimiter time) (key : string) (now : time)
    (calls : list (string * time)) :
  run self ((key, now) :: calls)
  = (fst (check self now key) :: fst (run (snd (check self now key)) calls),
     snd (run (snd (check self now key)) calls)).
Proof.
  cbn [run_calls]. destruct (check self now key) as [o s'].
  cbn [fst snd]. destruct (run s' calls). reflexivity.
Qed.

(** The recorded clock value of a key is the one of the latest call for
    the key that was let through. *)
Lemma run_calls_recorded (calls : list (string * time))
    (self : RateLimiter time) (key : string) :
  requests_per_second time (snd (run self calls))
  = requests_per_second time self
  /\ last_request_time time (snd (run self calls)) !! key
     = match last_allowed time key calls (fst (run self calls)) with
       | Some t => Some t
       | None => last_request_time time self !! key
       end.
Proof.
  revert self. induction calls as [|[k now] calls IH]; intros self.
  - split; reflexivity.
  - rewrite run_calls_cons. cbn [fst snd last_allowed].
    destruct (IH (snd (check self now k))) as [IHr IHl].
    split; [rewrite IHr; apply check_requests_per_second|].
    rewrite IHl.
    destruct (last_allowed time key calls _); [reflexivity|].
    destruct (check_outcome self now k) as [(u & Ho & Hs)|(e & Ho & Hs)];
      rewrite Ho, Hs; cbn [last_request_time].
    + destruct (decide (k = key)) as [->|Hne].
      * apply lookup_insert_eq.
      * apply lookup_insert_ne. exact Hne.
    + destruct (decide (k = key)); reflexivity.
Qed.

(** C9.  On a limiter of [rps] requests per second, [rps] not zero and
    [rate] its value as a float, that has served any sequence of calls: a
    call for a key is rejected exactly when a call for that key was let
    through before and the latest such call, the one recorded, is less
    than [1.0 / rate] back; a key with no call let through is always let
    through; a call let through records its clock value and a rejected
    call leaves the record as it was. *)
Theorem check_rate_limit_spec (rps : Z) (rate : time)
    (calls : list (string * time)) (key : string) (now : time) :
  rps <> 0%Z ->
  to_float rps = Some rate ->
  let before := run (new_limiter time rps) calls in
  let outcome := fst (check (snd before) now key) in
  let after := snd (check (snd before) now key) in
  last_request_time time (snd before) !! key
  = last_allowed time key calls (fst before)
  /\ (outcome = Raise (RATE_LIMIT_EXCEEDED)
      <-> exists last, last_allowed time key calls (fst before) = Some last
                       /\ tlt (tsub now last) (tdiv one rate) = true)
  /\ (outcome = Ok tt \/ outcome = Raise (RATE_LIMIT_EXCEEDED))
  /\ (last_allowed time key calls (fst before) = None -> outcome = Ok tt)
  /\ (outcome = Ok tt ->
      after = mk_limiter time rps
                (<[key := now]> (last_request_time time (snd before))))
  /\ (outcome = Raise (RATE_LIMIT_EXCEEDED) -> after = snd before).
Proof.
  intros Hrps Hrate. cbv zeta.
  assert (Hi : interval_of rps = Ok (tdiv one rate)).
  { unfold min_interval. rewrite Hrate.
    destruct (Z.eqb_spec rps 0); [contradiction|reflexivity]. }
  destruct (run_calls_recorded calls (new_limiter time rps) key) as [Hr Hl].
  cbn [new_limiter requests_per_second last_request_time] in Hr, Hl.
  rewrite lookup_empty in Hl.
  assert (Hrec : last_request_time time (snd (run (new_limiter time rps) calls))
                 !! key
                 = last_allowed time key calls
                     (fst (run (new_limiter time rps) calls))).
  { rewrite Hl. destruct (last_allowed _ _ _ _); reflexivity. }
  split; [exact Hrec|].
  unfold check_rate_limit. rewrite Hrec, Hr, Hi.
  destruct (last_allowed time key calls _) as [last|].
  - destruct (tlt (tsub now last) (tdiv one rate)) eqn:E; cbn [fst snd].
    + split; [split; [intros _; exists last; split; [reflexivity|exact E]
                     |reflexivity]|].
      split; [right; reflexivity|].
      split; [discriminate|]. split; [discriminate|reflexivity].
    + split; [split; [discriminate|]|].
      { intros (l & [= <-] & Hl'). congruence. }
      split; [left; reflexivity|].
      split; [discriminate|]. split; [reflexivity|discriminate].
  - cbn [fst snd]. split; [split; [discriminate|]|].
    { intros (l & Hl' & _). discriminate. }
    split; [left; reflexivity|].
    split; [reflexivity|]. split; [reflexivity|discriminate].
Qed.

End Clock.

(** With double-precision clock values and ten requests per second: after
    calls at 1000.000, 1000.050 (rejected), and 1000.200 for "opensea", a
    call at 1000.250 is rejected, the call at 1000.200 being 0.05 seconds
    back and [1.0 / 10] being 0.1. *)
Lemma check_rate_limit_spec_witness :
  fst (check_rate_limit spec_float Double.sub Double.div Double.ltb
         Double.one Double.of_int
         (snd (run_calls spec_float Double.sub Double.div Double.ltb
                 Double.one Double.of_int (new_limiter spec_float 10)
                 limiter_calls))
         (Double.millis 1000250) "opensea")
  = Raise RATE_LIMIT_EXCEEDED.
Proof.
  apply (proj2 (proj1 (proj2
    (check_rate_limit_spec spec_float Double.sub Double.div Double.ltb
       Double.one Double.of_int 10 (binary_normalize 53 1024 10 0 false)
       limiter_calls "opensea" (Double.millis 1000250)
       ltac:(discriminate) eq_refl)))).
  exists (Double.millis 1000200). split; vm_compute; reflexivity.
Defined.

Section MakeRequest.

Variable time : Type.
Variable tsub : time -> time -> time.
Variable tdiv : time -> time -> time.
Variable tlt : time -> time -> bool.
Variable one : time.
Variable to_float : Z -> option time.

Variable url : str.
Variable timeout : Z.
Variable retry_count : Z.
Variable retry_delay : Z.
Variable transport : nat -> attempt_outcome.

Local Abbreviation try' := (try_request url timeout retry_count transport).
Local Abbreviation loop' :=
  (request_loop url timeout retry_count retry_delay transport).




End MakeRequest.



End ApiFacts.

(** ** The NFT tool *)

Module ToolsFacts.

Import Api Tools.

Section NFTTool.

Variable world : Type.
Variable value : Type.
Variable is_address : str -> bool.
Variable NFT_ANALYSIS_LIMIT : Z.
Variable make_request : request -> M world (option envelope).
Variable get_collection_stats_body : str -> M world value.
Variable get_token_metadata_body : str -> Z -> M world value.
Variable get_sales_history_body : str -> Z -> M world value.
Variable analyze_price_trends : value -> M world value.

Local Abbreviation round' := (rarity_round world make_request).
Local Abbreviation loop' := (rarity_loop world make_request).
Local Abbreviation rarity_fuel := (calculate_rarity_scores_fuel world make_request).
Local Abbreviation rarity := (calculate_rarity_scores world make_request).
Local Abbreviation body' :=
  (execute_body world value is_address NFT_ANALYSIS_LIMIT make_request
     get_collection_stats_body get_token_metadata_body get_sales_history_body
     analyze_price_trends).
Local Abbreviation execute' :=
  (execute world value is_address NFT_ANALYSIS_LIMIT make_request
     get_collection_stats_body get_token_metadata_body get_sales_history_body
     analyze_price_trends).

Lemma bindM_Ok {A B : Type} (m : M world A) (k : A -> M world B)
    (w w' : world) (b : B) :
  bindM m k w = (Ok b, w') ->
  exists a w1, m w = (Ok a, w1) /\ k a w1 = (Ok b, w').
Proof.
  unfold bindM. destruct (m w) as [[a|e] w1]; [eauto|discriminate].
Qed.

(** A value that is true and can be iterated over has an item. *)
Lemma json_iter_truthy (v : json) (items : list json) :
  json_truthy v = true -> json_iter v = Ok items -> 0 < length items.
Proof.
  destruct v as [|b|n|f|s|l|kv]; simpl; try discriminate;
    intros Ht [= <-]; rewrite ?length_map;
    match goal with
    | |- 0 < length ?x => destruct x; [discriminate|simpl; lia]
    end.
Qed.

(** A round that goes on has added an asset. *)
Lemma rarity_round_grows (contract_address : str) (limit : Z)
    (assets assets' : list json) (offset offset' : Z) (w w' : world) :
  round' contract_address limit assets offset w
  = (Ok (Continue assets' offset'), w') ->
  length assets < length assets'.
Proof.
  unfold rarity_round. intros H.
  apply bindM_Ok in H as (response & w1 & _ & H).
  destruct response as [response|]; [|discriminate].
  destruct (success response); [|discriminate]. cbn [negb] in H.
  destruct (data response) as [d|]; [|discriminate].
  destruct (payload_get d (py "assets")) as [[found|]|]; try discriminate.
  destruct (json_truthy found) eqn:T; [|discriminate]. cbn [negb] in H.
  destruct (json_iter found) as [items|] eqn:I; [|discriminate].
  injection H as <- _ _.
  pose proof (json_iter_truthy _ _ T I). rewrite length_app. lia.
Qed.

(** The loop needs no more rounds than the assets it still lacks. *)
Lemma rarity_loop_fuel (contract_address : str) (limit : Z)
    (fuel extra : nat) (assets : list json) (offset : Z) (w : world) :
  (limit - Z.of_nat (length assets) <= Z.of_nat fuel)%Z ->
  loop' (fuel + extra) contract_address limit assets offset w
  = loop' fuel contract_address limit assets offset w.
Proof.
  revert assets offset w. induction fuel as [|fuel IH]; intros assets offset w L.
  - cbn [rarity_loop Nat.add]. destruct extra as [|extra]; [reflexivity|].
    cbn [rarity_loop].
    destruct (Z.ltb_spec (Z.of_nat (length assets)) limit); [lia|reflexivity].
  - cbn [rarity_loop Nat.add].
    destruct (Z.ltb_spec (Z.of_nat (length assets)) limit); [|reflexivity].
    unfold bindM.
    destruct (round' contract_address limit assets offset w)
      as [[[|assets' offset']|e] w1] eqn:R; try reflexivity.
    apply IH. pose proof (rarity_round_grows _ _ _ _ _ _ _ _ R). lia.
Qed.

(** C8.  Whatever the upstream answers, [calculate_rarity_scores] raises
    or ends with [None]: it raises when no asset was fetched and ends
    without a value when some were, so no rarity result ever comes out;
    more rounds than [limit] change nothing. *)
Theorem calculate_rarity_scores_no_result (contract_address : str)
    (limit : Z) (w : world) :
  let outcome := fst (rarity contract_address limit w) in
  ((exists e, outcome = Raise e) \/ outcome = Ok JNull)
  /\ outcome
     = match fst (loop' (Z.to_nat limit) contract_address limit [] 0%Z w) with
       | Ok [] =>
           Raise (ToolException
                    (py "Failed to fetch assets for rarity calculation"))
       | Ok (_ :: _) => Ok JNull
       | Raise e => Raise e
       end
  /\ (forall extra,
        rarity_fuel (Z.to_nat limit + extra) contract_address limit w
        = rarity contract_address limit w).
Proof.
  cbv zeta. unfold calculate_rarity_scores, calculate_rarity_scores_fuel.
  split; [|split].
  - unfold bindM.
    destruct (loop' (Z.to_nat limit) contract_address limit [] 0%Z w)
      as [[[|a assets]|e] w1]; cbn [fst]; eauto.
  - unfold bindM.
    destruct (loop' (Z.to_nat limit) contract_address limit [] 0%Z w)
      as [[[|a assets]|e] w1]; reflexivity.
  - intros extra. unfold bindM. rewrite rarity_loop_fuel; [reflexivity|].
    cbn [length]. lia.
Qed.

(** The shape shared by the [execute] methods of the tools: a body under
    [try] whose handler is [handle_error] returns an envelope whatever the
    body does. *)
Lemma guarded_never_raises {R : Type} (body : M world (tool_envelope R))
    (name : str) (w : world) :
  exists env,
    fst (try_except body (handle_error name) w) = Ok env
    /\ match fst (body w) with
       | Raise e =>
           env = mk_tool_envelope (py "error") name None (Some (exn_str e))
       | Ok returned => env = returned
       end.
Proof.
  unfold try_except. destruct (body w) as [[env|e] w1]; cbn [fst].
  - exists env. split; reflexivity.
  - unfold handle_error, ret. cbn [fst]. eexists. split; reflexivity.
Qed.

(** What the [try] block returns is a success envelope of the tool. *)
Lemma execute_body_Ok (contract_address : str) (kw : kwargs)
    (w w' : world) (env : tool_envelope (nft_result value)) :
  body' contract_address kw w = (Ok env, w') ->
  env_status env = py "success" /\ env_tool env = NAME
  /\ env_error env = None.
Proof.
  unfold execute_body. intros H.
  apply bindM_Ok in H as (? & ? & _ & H).
  apply bindM_Ok in H as (? & ? & _ & H).
  apply bindM_Ok in H as (? & ? & _ & H).
  apply bindM_Ok in H as (? & ? & _ & H).
  apply bindM_Ok in H as (? & ? & _ & H).
  unfold format_output, ret in H. injection H as <- _.
  repeat split.
Qed.

(** C4.  [NFTTool.execute] never raises: it returns an envelope.  When
    its [try] block raises, the envelope has the status ["error"], the
    name of the tool and the text of the exception; otherwise it is the
    success envelope the block returned. *)
Theorem execute_never_raises (contract_address : str) (kw : kwargs)
    (w : world) :
  exists env,
    fst (execute' contract_address kw w) = Ok env
    /\ env_tool env = NAME
    /\ match fst (body' contract_address kw w) with
       | Raise e =>
           env = mk_tool_envelope (py "error") NAME None (Some (exn_str e))
       | Ok returned =>
           env = returned /\ env_status env = py "success"
           /\ env_error env = None
       end.
Proof.
  unfold execute.
  destruct (guarded_never_raises (body' contract_address kw) NAME w)
    as (env & Hexec & Hbody).
  exists env. split; [exact Hexec|].
  destruct (body' contract_address kw w) as [[returned|e] w1] eqn:B;
    cbn [fst] in *.
  - subst env. destruct (execute_body_Ok _ _ _ _ _ B) as (Hs & Ht & He).
    repeat split; assumption.
  - subst env. split; reflexivity.
Qed.

End NFTTool.

(** An address that fails validation: the error comes back as an
    envelope. *)
Example execute_invalid_address :
  fst (execute unit unit (fun _ => false) 1000
         (fun _ => raise (ValueError (py "unused")))
         (fun _ => ret tt) (fun _ _ => ret tt) (fun _ _ => ret tt)
         (fun _ => ret tt)
         (py "not-an-address") (mk_kwargs None None None None None) tt)
  = Ok (mk_tool_envelope (py "error") (py "NFTTool") None
          (Some (py "Invalid NFT contract address"))).
Proof. reflexivity. Qed.

(** An upstream with one page of two assets: the rarity analysis ends
    with [None], and [execute] reports success with that. *)
Example rarity_one_page :
  fst (calculate_rarity_scores (list nat)
         (fun _ w =>
            match w with
            | [] =>
                (Ok (Some (mk_envelope true
                             (Some (PJson (JDict [(py "assets",
                                                   JList [JInt 1; JInt 2])])))
                             None None (Some 200%Z))), [1])
            | _ =>
                (Ok (Some (mk_envelope true (Some (PJson (JDict [])))
                             None None (Some 200%Z))), w)
            end)
         (py "0xabc") 1000 [])
  = Ok JNull.
Proof. vm_compute. reflexivity. Qed.

End ToolsFacts.

(** ** More on the output parser *)

Module ParserMore.

Import PyFacts OutputParser ParserFacts MoreSamples.

Lemma lstrip_length (s : str) : length (lstrip s) <= length s.
Proof.
  destruct (lstrip_suffix s) as [w H]. rewrite H at 2. rewrite length_app. lia.
Qed.

Lemma rstrip_length (s : str) : length (rstrip s) <= length s.
Proof.
  destruct (rstrip_prefix s) as [w H]. rewrite H at 2. rewrite length_app. lia.
Qed.

(** The stripped text lies inside the text. *)
Lemma strip_inside (s : str) : exists a b, s = a ++ strip s ++ b.
Proof.
  unfold strip. destruct (rstrip_prefix s) as [b Hb].
  destruct (lstrip_suffix (rstrip s)) as [a Ha].
  exists a, b. rewrite app_assoc, <- Ha. exact Hb.
Qed.

(** Stripping neither adds nor removes an occurrence of a marker that
    starts and ends with a character that is not white space. *)
Lemma contains_strip (mid s : str) (c1 c2 : ascii) :
  isspace c1 = false -> isspace c2 = false ->
  contains (c1 :: mid ++ [c2]) (strip s) = contains (c1 :: mid ++ [c2]) s.
Proof.
  intros H1 H2. set (m := c1 :: mid ++ [c2]).
  destruct (contains m s) eqn:C.
  - unfold contains in C. destruct (find m s) as [i|] eqn:F; [|discriminate].
    destruct (find_Some _ _ _ F) as (a & b & -> & _).
    unfold m. rewrite strip_around by assumption. apply contains_occurrence.
  - destruct (contains m (strip s)) eqn:C'; [|reflexivity]. exfalso.
    unfold contains in C'.
    destruct (find m (strip s)) as [i|] eqn:F; [|discriminate].
    destruct (find_Some _ _ _ F) as (a & b & E & _).
    destruct (strip_inside s) as (x & y & Hs).
    apply (contains_false m s (x ++ a) (b ++ y) C).
    rewrite Hs at 1. rewrite E, <- !app_assoc. reflexivity.
Qed.

Lemma contains_strip_FINAL_ANSWER (s : str) :
  contains FINAL_ANSWER (strip s) = contains FINAL_ANSWER s.
Proof.
  rewrite FINAL_ANSWER_shape. apply contains_strip; reflexivity.
Qed.

Lemma contains_strip_ACTION (s : str) :
  contains ACTION (strip s) = contains ACTION s.
Proof.
  change ACTION with ("A"%char :: py "ction" ++ [":"%char]).
  apply contains_strip; reflexivity.
Qed.

Lemma contains_strip_ACTION_INPUT (s : str) :
  contains ACTION_INPUT (strip s) = contains ACTION_INPUT s.
Proof.
  change ACTION_INPUT with ("A"%char :: py "ction Input" ++ [":"%char]).
  apply contains_strip; reflexivity.
Qed.

Section Parser.

Variable J : Type.
Variable json_loads : str -> option J.

(** X1.  The parser gives a final answer exactly for the texts that hold
    the marker [Final Answer:]; a text without it gives a tool call or
    an error, never a final answer. *)
Theorem parse_finish_iff (text : str) :
  (exists output log, parse J json_loads text = Ok (AgentFinish output log))
  <-> contains FINAL_ANSWER text = true.
Proof.
  unfold parse. rewrite contains_strip_FINAL_ANSWER.
  destruct (contains FINAL_ANSWER text).
  - split; [reflexivity|]. intros _. eauto.
  - split; [|discriminate]. intros (output & log & H).
    destruct (action_match (strip text)); [|discriminate].
    destruct (action_input_match (strip text)); discriminate.
Qed.

(** X2.  A text that holds no [Final Answer:] and lacks the [Action:] or
    the [Action Input:] marker is a parse failure: a [ValueError] whose
    message quotes the stripped text. *)
Theorem parse_missing_marker (text : str) :
  contains FINAL_ANSWER text = false ->
  contains ACTION text = false \/ contains ACTION_INPUT text = false ->
  parse J json_loads text
  = Raise (ValueError (py "Could not parse LLM output: " ++ strip text)).
Proof.
  intros Hf Hm. unfold parse. rewrite contains_strip_FINAL_ANSWER, Hf.
  destruct Hm as [Ha|Hi].
  - rewrite <- contains_strip_ACTION in Ha. unfold contains in Ha.
    unfold action_match. destruct (find ACTION (strip text)); [discriminate|].
    reflexivity.
  - rewrite <- contains_strip_ACTION_INPUT in Hi. unfold contains in Hi.
    unfold action_input_match.
    destruct (find ACTION_INPUT (strip text)); [discriminate|].
    destruct (action_match (strip text)); reflexivity.
Qed.

End Parser.

(** *** A tool call on two lines *)

Lemma lstrip_fixed (s : str) (c : ascii) :
  isspace c = false -> lstrip (c :: s) = c :: s.
Proof. intros H. simpl. rewrite H. reflexivity. Qed.

Lemma rstrip_fixed (s : str) (c : ascii) :
  isspace c = false -> rstrip (s ++ [c]) = s ++ [c].
Proof.
  intros H. rewrite <- (app_nil_r (s ++ [c])) at 1.
  rewrite rstrip_app_nonspace by exact H. unfold rstrip. simpl.
  apply app_nil_r.
Qed.

(** A text that stripping leaves alone starts and ends with a character
    that is not white space. *)
Lemma strip_fixed_ends (s : str) :
  s <> [] -> strip s = s ->
  (exists c r, s = c :: r /\ isspace c = false)
  /\ (exists r c, s = r ++ [c] /\ isspace c = false).
Proof.
  intros Hne Hs. unfold strip in Hs.
  assert (Hr : rstrip s = s).
  { destruct (rstrip_prefix s) as [w Hw].
    pose proof (lstrip_length (rstrip s)) as L1.
    rewrite Hs in L1.
    assert (length w = 0).
    { apply (f_equal (@length _)) in Hw. rewrite length_app in Hw. lia. }
    destruct w; [|discriminate]. rewrite app_nil_r in Hw. symmetry. exact Hw. }
  rewrite Hr in Hs. split.
  - destruct s as [|c r]; [congruence|]. exists c, r. split; [reflexivity|].
    simpl in Hs. destruct (isspace c); [|reflexivity].
    pose proof (lstrip_length r) as L. rewrite Hs in L. simpl in L. lia.
  - unfold rstrip in Hr.
    assert (Hl : lstrip (rev s) = rev s).
    { rewrite <- Hr at 2. rewrite rev_involutive. reflexivity. }
    destruct (rev s) as [|c r] eqn:E.
    + apply (f_equal (@rev _)) in E. rewrite rev_involutive in E.
      simpl in E. congruence.
    + exists (rev r), c. split.
      * apply (f_equal (@rev _)) in E. rewrite rev_involutive in E. exact E.
      * simpl in Hl. destruct (isspace c); [|reflexivity].
        pose proof (lstrip_length r) as L. rewrite Hl in L. simpl in L. lia.
Qed.

Lemma space_isspace : isspace " " = true.
Proof. reflexivity. Qed.

Lemma skip_spaces_stop (c : ascii) (s : str) :
  c <> " "%char -> skip_spaces (c :: s) = c :: s.
Proof. intros H. simpl. destruct (ascii_dec c " "); [contradiction|reflexivity]. Qed.

Lemma lazy_until_class_name (name rest : str) :
  forallb name_char name = true ->
  lazy_until_class (name ++ LF :: rest) = Some name.
Proof.
  induction name as [|c name IH]; intros H; simpl.
  - destruct (ascii_dec LF LF); [reflexivity|congruence].
  - simpl in H. apply andb_true_iff in H as [Hc Hn].
    unfold name_char in Hc. apply andb_true_iff in Hc as [Hs Hd].
    destruct (ascii_dec c LF) as [->|]; [discriminate|].
    destruct (ascii_dec c "$"); [discriminate|].
    rewrite (IH Hn). reflexivity.
Qed.

Lemma lazy_until_eol_line (s : str) :
  forallb not_line_feed s = true -> lazy_until_eol s = s.
Proof.
  induction s as [|c s IH]; intros H; simpl; [reflexivity|].
  simpl in H. apply andb_true_iff in H as [Hc Hs]. unfold not_line_feed in Hc.
  destruct (ascii_dec c LF); [discriminate|]. rewrite (IH Hs). reflexivity.
Qed.

Lemma name_char_forall_rev (s : str) :
  forallb name_char s = true -> forallb name_char (rev s) = true.
Proof.
  rewrite !forallb_forall. intros H c Hc. apply H. apply in_rev. exact Hc.
Qed.

Lemma lstrip_name (s : str) : forallb name_char s = true -> lstrip s = s.
Proof.
  destruct s as [|c s]; [reflexivity|]. simpl. intros H.
  apply andb_true_iff in H as [Hc _]. unfold name_char in Hc.
  apply andb_true_iff in Hc as [Hs _]. apply negb_true_iff in Hs.
  rewrite Hs. reflexivity.
Qed.

Lemma strip_name (s : str) : forallb name_char s = true -> strip s = s.
Proof.
  intros H. unfold strip, rstrip.
  rewrite (lstrip_name (rev s)) by (apply name_char_forall_rev; exact H).
  rewrite rev_involutive. apply lstrip_name. exact H.
Qed.

(** An occurrence in a text with one more character at its end lies in
    the text, when the marker does not end with that character. *)
Lemma find_None_snoc (mid s : str) (c1 c2 c : ascii) :
  c2 <> c -> find (c1 :: mid ++ [c2]) s = None ->
  find (c1 :: mid ++ [c2]) (s ++ [c]) = None.
Proof.
  intros Hc F. set (m := c1 :: mid ++ [c2]) in *.
  destruct (find m (s ++ [c])) as [i|] eqn:G; [|reflexivity]. exfalso.
  destruct (find_Some _ _ _ G) as (a & b & E & _).
  destruct (rev b) as [|x b'] eqn:Eb.
  - apply (f_equal (@rev _)) in Eb. rewrite rev_involutive in Eb. simpl in Eb.
    subst b. rewrite app_nil_r in E. unfold m in E.
    change (c1 :: mid ++ [c2]) with ((c1 :: mid) ++ [c2]) in E.
    rewrite app_assoc in E. apply app_inj_tail in E as [_ E]. congruence.
  - apply (f_equal (@rev _)) in Eb. rewrite rev_involutive in Eb. simpl in Eb.
    subst b. rewrite !app_assoc in E. apply app_inj_tail in E as [E _].
    apply (find_None m s a (rev b') F). rewrite E, <- app_assoc. reflexivity.
Qed.

Lemma find_cons_false (m s : str) (c : ascii) :
  startswith m (c :: s) = false ->
  find m (c :: s) = option_map S (find m s).
Proof. intros H. rewrite find_unfold, H. reflexivity. Qed.

Lemma find_ACTION_INPUT_tool_line (tool : str) :
  find ACTION_INPUT tool = None ->
  find ACTION_INPUT (py "Action: " ++ tool ++ [LF]) = None.
Proof.
  intros F. rewrite app_assoc.
  change ACTION_INPUT with ("A"%char :: py "ction Input" ++ [":"%char]).
  apply find_None_snoc; [discriminate|].
  change ("A"%char :: py "ction Input" ++ [":"%char]) with ACTION_INPUT.
  change (py "Action: " ++ tool)
    with ("A"%char :: "c"%char :: "t"%char :: "i"%char :: "o"%char
          :: "n"%char :: ":"%char :: " "%char :: tool).
  do 8 (rewrite find_cons_false by (vm_compute; reflexivity)).
  rewrite F. reflexivity.
Qed.

Section Parser.

Variable J : Type.
Variable json_loads : str -> option J.

(** X3.  A tool call written as the prompt asks, the tool name on the
    [Action:] line and the input on the [Action Input:] line, parses to
    that tool and that input, decoded when it is a JSON object: for a
    name without white space or dollar sign and a one-line input without
    surrounding white space. *)
Theorem parse_tool_call (tool input : str) :
  forallb name_char tool = true ->
  find ACTION_INPUT tool = None ->
  input <> [] -> strip input = input ->
  forallb not_line_feed input = true ->
  contains FINAL_ANSWER
    (py "Action: " ++ tool ++ [LF] ++ py "Action Input: " ++ input) = false ->
  parse J json_loads
    (py "Action: " ++ tool ++ [LF] ++ py "Action Input: " ++ input)
  = Ok (AgentAction tool (decode_action_input J json_loads input)
          (py "Action: " ++ tool ++ [LF] ++ py "Action Input: " ++ input)).
Proof.
  intros Hname Hfind Hne Hstrip Hline Hfinal.
  destruct (strip_fixed_ends input Hne Hstrip)
    as [(c & r & Hc & Hcs) (r' & c' & Hc' & Hcs')].
  set (text := py "Action: " ++ tool ++ [LF] ++ py "Action Input: " ++ input).
  assert (Htext : strip text = text).
  { unfold strip, text. rewrite Hc'.
    replace (py "Action: " ++ tool ++ [LF] ++ py "Action Input: " ++ r' ++ [c'])
      with ((py "Action: " ++ tool ++ [LF] ++ py "Action Input: " ++ r') ++ [c'])
      by (rewrite <- !app_assoc; reflexivity).
    rewrite rstrip_fixed by exact Hcs'. reflexivity. }
  unfold parse. rewrite Htext. fold text in Hfinal. rewrite Hfinal.
  assert (Ha : action_match text = Some tool).
  { unfold action_match, text.
    change (py "Action: " ++ tool ++ [LF] ++ py "Action Input: " ++ input)
      with (ACTION ++ " "%char :: tool ++ [LF] ++ py "Action Input: " ++ input).
    rewrite find_unfold, startswith_app.
    change (0 + length ACTION) with (length ACTION).
    rewrite drop_app_length.
    cbn [skip_spaces]. destruct (ascii_dec " " " "); [|congruence].
    assert (Hs : skip_spaces (tool ++ [LF] ++ py "Action Input: " ++ input)
                 = tool ++ [LF] ++ py "Action Input: " ++ input).
    { destruct tool as [|t tool'].
      - reflexivity.
      - apply skip_spaces_stop. intros ->. discriminate. }
    rewrite Hs. apply lazy_until_class_name. exact Hname. }
  assert (Hi : action_input_match text = Some input).
  { unfold action_input_match.
    set (P := py "Action: " ++ tool ++ [LF]).
    assert (Et : text = P ++ ACTION_INPUT ++ " "%char :: input).
    { unfold text, P. rewrite <- !app_assoc. reflexivity. }
    destruct (find_occurrence ACTION_INPUT P (" "%char :: input))
      as (i & Fi & Li).
    rewrite <- Et in Fi. rewrite Fi.
    assert (i = length P) as ->.
    { destruct (Nat.eq_dec i (length P)) as [|Hneq]; [assumption|]. exfalso.
      destruct (find_Some _ _ _ Fi) as (a & b & E & La).
      rewrite Et in E. symmetry in E.
      assert (Lo : length a + length ACTION_INPUT <= length P).
      { eapply unbordered_no_overlap; [reflexivity|exact E|lia]. }
      assert (E2 : (a ++ ACTION_INPUT) ++ b
                   = P ++ ACTION_INPUT ++ " "%char :: input).
      { rewrite <- app_assoc. exact E. }
      destruct (app_eq_le _ _ _ _ E2) as (x & Hx & _).
      { rewrite length_app. lia. }
      apply (find_None ACTION_INPUT P a x
               (find_ACTION_INPUT_tool_line tool Hfind)).
      rewrite Hx, <- app_assoc. reflexivity. }
    rewrite Et, app_assoc, <- length_app, drop_app_length.
    cbn [skip_spaces]. destruct (ascii_dec " " " "); [|congruence].
    rewrite Hc. rewrite skip_spaces_stop by (intros ->; discriminate).
    rewrite <- Hc. rewrite lazy_until_eol_line by exact Hline. reflexivity. }
  rewrite Ha, Hi. cbv zeta. rewrite (strip_name tool Hname), Hstrip.
  reflexivity.
Qed.

End Parser.

Lemma parse_tool_call_witness :
  parse Api.json (fun _ => Some (Api.JDict [(py "command", Api.JStr (py "price"));
                                            (py "symbol", Api.JStr (py "BTC"))]))
    price_call_text
  = Ok (AgentAction (py "TokenTool")
          (InputJson (Api.JDict [(py "command", Api.JStr (py "price"));
                                 (py "symbol", Api.JStr (py "BTC"))]))
          price_call_text).
Proof.
  apply (parse_tool_call Api.json
           (fun _ => Some (Api.JDict [(py "command", Api.JStr (py "price"));
                                      (py "symbol", Api.JStr (py "BTC"))]))
           (py "TokenTool") price_input);
    try reflexivity.
  discriminate.
Defined.

Lemma parse_missing_marker_witness :
  parse unit (fun _ => None) (py "  I think the price is high. ")
  = Raise (ValueError (py "Could not parse LLM output: "
                          ++ py "I think the price is high.")).
Proof.
  apply (parse_missing_marker unit (fun _ => None)
           (py "  I think the price is high. ")).
  - reflexivity.
  - left. reflexivity.
Defined.

End ParserMore.

(** ** More on the conversation memory *)

Module MemoryMore.

Import PyFacts Memory MemoryFacts History.

Lemma chat_memory_save_context (m : EnhancedConversationMemory)
    (input output : str) :
  chat_memory (save_context m input output)
  = chat_memory m ++ [HumanMessage input; AIMessage output].
Proof.
  unfold save_context. destruct (findall_addresses (lower input)); reflexivity.
Qed.

Lemma history_fold (ops : list memory_op) (m : EnhancedConversationMemory)
    (turns : list (str * str)) :
  get_conversation_history m = flat_map turn_entries turns ->
  get_conversation_history (fold_left apply_op ops m)
  = flat_map turn_entries
      (fold_left (fun turns op =>
                    match op with
                    | OpSaveContext input output => turns ++ [(input, output)]
                    | OpClearMemory => []
                    end) ops turns).
Proof.
  revert m turns. induction ops as [|op ops IH]; intros m turns H; simpl.
  - exact H.
  - apply IH. destruct op as [i o|]; simpl.
    + unfold get_conversation_history in *.
      rewrite chat_memory_save_context, map_app, H, flat_map_app. simpl.
      reflexivity.
    + reflexivity.
Qed.

(** X4.  After any sequence of [save_context] and [clear] calls on a new
    memory, the history holds, for each [save_context] call made since
    the last [clear] and in the order of the calls, an entry of role
    [user] with the input as it was passed and then an entry of role
    [assistant] with the output. *)
Theorem history_is_turns_since_clear (ops : list memory_op) :
  get_conversation_history (apply_ops new_memory ops)
  = flat_map turn_entries (turns_since_clear ops).
Proof. apply history_fold. reflexivity. Qed.

(** What [findall] gives are matches of the pattern in the text. *)
Lemma findall_fuel_matches (fuel : nat) (s m : str) :
  In m (findall_fuel fuel s) ->
  exists i, match_address (drop i s) = Some m.
Proof.
  revert s. induction fuel as [|fuel IH]; intros s; [intros []|].
  cbn [findall_fuel]. destruct s as [|c s']; [intros []|].
  destruct (match_address (c :: s')) as [m0|] eqn:E.
  - intros [<-|Hin].
    + exists 0. exact E.
    + destruct (IH _ Hin) as [i Hi]. exists (length m0 + i).
      rewrite <- drop_drop. exact Hi.
  - intros Hin. destruct (IH _ Hin) as [i Hi]. exists (S i). exact Hi.
Qed.

(** A match in a lower-cased text is in lower case. *)
Lemma match_in_lower (q tok : str) (j : nat) :
  match_address (drop j (lower q)) = Some tok -> lower tok = tok.
Proof.
  intros H. destruct (match_address_Some _ _ H) as (Hshape & rest & Hrest).
  assert (E : tok = lower (take 42 (drop j q))).
  { unfold lower. rewrite <- firstn_map, <- skipn_map.
    fold (lower q). rewrite Hrest.
    rewrite <- (address_shaped_length _ Hshape).
    rewrite take_app_length. reflexivity. }
  rewrite E. apply lower_idem.
Qed.

Lemma apply_op_stored_ok (m : EnhancedConversationMemory) (op : memory_op) :
  stored_ok m -> stored_ok (apply_op m op).
Proof.
  intros H. destruct op as [i o|]; [|exact H].
  unfold apply_op, save_context, stored_ok.
  destruct (findall_addresses (lower i)) as [|a rest] eqn:E; [exact H|].
  cbn [entity_context last_address].
  assert (Hin : In a (findall_fuel (length (lower i)) (lower i))).
  { unfold findall_addresses in E. rewrite E. left. reflexivity. }
  destruct (findall_fuel_matches _ _ _ Hin) as [j Hj].
  split.
  - apply (match_address_Some _ _ Hj).
  - apply (match_in_lower _ _ _ Hj).
Qed.

(** X5.  Whatever turns are saved and resets made, the entity context
    holds no address or a token of the address shape in lower case: 42
    characters, [0x] and forty hexadecimal digits none of which is an
    upper-case letter. *)
Theorem stored_address_well_formed (ops : list memory_op) :
  match last_address (entity_context (apply_ops new_memory ops)) with
  | Some a => address_shaped a = true /\ lower a = a /\ length a = 42
  | None => True
  end.
Proof.
  assert (H : stored_ok (apply_ops new_memory ops)).
  { unfold apply_ops. generalize new_memory, (I : stored_ok new_memory).
    induction ops as [|op ops IH]; intros m Hm; simpl; [exact Hm|].
    apply IH, apply_op_stored_ok, Hm. }
  unfold stored_ok in H.
  destruct (last_address (entity_context (apply_ops new_memory ops)));
    [|exact I].
  destruct H as [Hs Hl]. repeat split; try assumption.
  apply address_shaped_length. exact Hs.
Qed.

(** A query with a token of the address shape makes [findall] give a
    match. *)
Lemma findall_addresses_nonempty (pre tok suf : str) :
  address_shaped tok = true ->
  exists a rest,
    findall_addresses (lower (pre ++ tok ++ suf)) = a :: rest
    /\ address_shaped a = true.
Proof.
  intros Hshape.
  assert (Hat : match_address (drop (length pre) (lower (pre ++ tok ++ suf)))
                = Some (lower tok)).
  { rewrite !lower_app.
    replace (length pre) with (length (lower pre))
      by (unfold lower; apply length_map).
    rewrite drop_app_length. apply match_address_app.
    apply address_shaped_lower. exact Hshape. }
  destruct (first_match_exists _ _ _ Hat) as (j & tok' & Hj & Hm & Hfirst).
  destruct (match_address_Some _ _ Hm) as (Hshape' & rest & Hrest).
  set (lq := lower (pre ++ tok ++ suf)) in *.
  assert (Hsplit : lq = take j lq ++ tok' ++ rest).
  { rewrite <- Hrest. symmetry. apply take_drop. }
  assert (Llq : j <= length lq).
  { unfold lq, lower. rewrite length_map, length_app. lia. }
  destruct (findall_fuel_first (take j lq) tok' rest Hshape') with
    (fuel := length lq) as [others Hall].
  - intros i Hi. rewrite <- Hsplit. apply Hfirst.
    rewrite length_take in Hi. lia.
  - rewrite <- Hsplit. lia.
  - exists tok', others. split; [|exact Hshape'].
    unfold findall_addresses. rewrite <- Hsplit in Hall. exact Hall.
Qed.

(** X6.  An address given in one turn resolves a later query: after a
    turn whose query holds a token of the address shape is saved, a query
    with a cue text and without the word "address" is rewritten with the
    address that was stored. *)
Theorem followup_uses_saved_address (m : EnhancedConversationMemory)
    (pre tok suf output followup : str) (context : list (str * str)) :
  address_shaped tok = true ->
  contains (py "address") (lower followup) = false ->
  existsb (fun word => contains word (lower followup)) CUE_WORDS = true ->
  exists a,
    last_address (entity_context (save_context m (pre ++ tok ++ suf) output))
    = Some a
    /\ address_shaped a = true
    /\ _format_query_with_context
         (save_context m (pre ++ tok ++ suf) output) followup context
       = add_context (followup ++ py " for address " ++ a) context.
Proof.
  intros Hshape Hword Hcue.
  destruct (findall_addresses_nonempty pre tok suf Hshape)
    as (a & rest & Hall & Ha).
  exists a. unfold _format_query_with_context, save_context.
  rewrite Hall. cbn [entity_context last_address].
  split; [reflexivity|]. split; [exact Ha|].
  rewrite Hword, Hcue.
  pose proof (address_shaped_length _ Ha) as L.
  destruct a; [discriminate|]. reflexivity.
Qed.

Lemma followup_uses_saved_address_witness :
  exists a,
    last_address
      (entity_context (save_context new_memory
                         (py "check balance of " ++ Samples.address_upper ++ [])
                         (py "ok")))
    = Some a
    /\ address_shaped a = true
    /\ _format_query_with_context
         (save_context new_memory
            (py "check balance of " ++ Samples.address_upper ++ [])
            (py "ok"))
         Samples.followup_query []
       = add_context (Samples.followup_query ++ py " for address " ++ a) [].
Proof.
  apply (followup_uses_saved_address new_memory (py "check balance of ")
           Samples.address_upper [] (py "ok") Samples.followup_query []);
    reflexivity.
Defined.

End MemoryMore.

(** ** More on the rate limiter and the request loop *)

Module ApiMoreFacts.

Import Api ApiMore ApiFacts.

Section Clock.

Variable time : Type.
Variable tsub : time -> time -> time.
Variable tdiv : time -> time -> time.
Variable tlt : time -> time -> bool.
Variable one : time.
Variable to_float : Z -> option time.

Local Abbreviation check := (check_rate_limit time tsub tdiv tlt one to_float).
Local Abbreviation run := (run_calls time tsub tdiv tlt one to_float).
Local Abbreviation interval_of := (min_interval time tdiv one to_float).

(** Two limiters that agree on a key treat a call for it alike. *)
Lemma check_same_key (s1 s2 : RateLimiter time) (now : time) (key : string) :
  requests_per_second time s1 = requests_per_second time s2 ->
  last_request_time time s1 !! key = last_request_time time s2 !! key ->
  fst (check s1 now key) = fst (check s2 now key)
  /\ last_request_time time (snd (check s1 now key)) !! key
     = last_request_time time (snd (check s2 now key)) !! key.
Proof.
  intros Hr Hl. unfold check_rate_limit. rewrite Hr, Hl.
  destruct (last_request_time time s2 !! key) as [last|] eqn:E.
  - destruct (interval_of (requests_per_second time s2)) as [i|e].
    + destruct (tlt (tsub now last) i); cbn [fst snd last_request_time].
      * split; [reflexivity|]. rewrite E. exact Hl.
      * split; [reflexivity|]. rewrite !lookup_insert_eq. reflexivity.
    + cbn [fst snd]. split; [reflexivity|]. rewrite E. exact Hl.
  - cbn [fst snd last_request_time]. split; [reflexivity|].
    rewrite !lookup_insert_eq. reflexivity.
Qed.

(** A call for one key leaves the record of every other key alone. *)
Lemma check_other_key (s : RateLimiter time) (now : time) (k key : string) :
  k <> key ->
  last_request_time time (snd (check s now k)) !! key
  = last_request_time time s !! key.
Proof.
  intros Hne.
  destruct (check_outcome time tsub tdiv tlt one to_float s now k)
    as [(u & _ & Hs)|(e & _ & Hs)]; rewrite Hs; [|reflexivity].
  cbn [last_request_time]. apply lookup_insert_ne. exact Hne.
Qed.

Lemma run_calls_key_independent (calls : list (string * time)) (key : string)
    (s1 s2 : RateLimiter time) :
  requests_per_second time s1 = requests_per_second time s2 ->
  last_request_time time s1 !! key = last_request_time time s2 !! key ->
  select_key time key calls (fst (run s1 calls))
  = fst (run s2 (calls_for time key calls)).
Proof.
  revert s1 s2. induction calls as [|[k now] calls IH]; intros s1 s2 Hr Hl.
  - reflexivity.
  - rewrite (run_calls_cons time tsub tdiv tlt one to_float s1).
    cbn [fst select_key calls_for].
    destruct (decide (k = key)) as [->|Hne].
    + rewrite (run_calls_cons time tsub tdiv tlt one to_float s2).
      cbn [fst].
      destruct (check_same_key s1 s2 now key Hr Hl) as [Ho Hl'].
      rewrite Ho. f_equal. apply IH; [|exact Hl'].
      rewrite !check_requests_per_second. exact Hr.
    + apply IH.
      * rewrite check_requests_per_second. exact Hr.
      * rewrite check_other_key by exact Hne. exact Hl.
Qed.

(** X7.  The limiter treats every key on its own: the outcomes of the
    calls for a key are the same whether the calls for other keys are
    made between them or not. *)
Theorem rate_limit_per_key (rps : Z) (calls : list (string * time))
    (key : string) :
  select_key time key calls (fst (run (new_limiter time rps) calls))
  = fst (run (new_limiter time rps) (calls_for time key calls)).
Proof. apply run_calls_key_independent; reflexivity. Qed.

(** With a rate of zero every key called so far has a record. *)
Lemma zero_rate_recorded (calls : list (string * time)) (key : string)
    (self : RateLimiter time) :
  requests_per_second time (snd (run self calls))
  = requests_per_second time self
  /\ (is_Some (last_request_time time (snd (run self calls)) !! key)
      <-> is_Some (last_request_time time self !! key)
          \/ In key (map fst calls)).
Proof.
  revert self. induction calls as [|[k now] calls IH]; intros self.
  - cbn. split; [reflexivity|]. tauto.
  - rewrite run_calls_cons. cbn [fst snd map In].
    destruct (IH (snd (check self now k))) as [IHr IHl].
    split; [rewrite IHr; apply check_requests_per_second|].
    rewrite IHl. clear IHr IHl.
    destruct (decide (k = key)) as [->|Hne].
    + assert (Hrec : is_Some (last_request_time time (snd (check self now key))
                              !! key)).
      { unfold check_rate_limit.
        destruct (last_request_time time self !! key) as [last|] eqn:E.
        - destruct (interval_of (requests_per_second time self)) as [i|e].
          + destruct (tlt (tsub now last) i); cbn [snd last_request_time].
            * rewrite E. eauto.
            * rewrite lookup_insert_eq. eauto.
          + cbn [snd]. rewrite E. eauto.
        - cbn [snd last_request_time]. rewrite lookup_insert_eq. eauto. }
      tauto.
    + rewrite check_other_key by exact Hne. intuition congruence.
Qed.

(** X8.  With [requests_per_second = 0] the first call for a key is let
    through, and every later call for that key raises
    [ZeroDivisionError] and changes nothing: the key stays blocked. *)
Theorem zero_rate_blocks_key (zero : time) (calls : list (string * time))
    (key : string) (now : time) :
  to_float 0 = Some zero ->
  let before := snd (run (new_limiter time 0) calls) in
  (In key (map fst calls) ->
   check before now key
   = (Raise (ZeroDivisionError (py "float division by zero")), before))
  /\ (~ In key (map fst calls) -> fst (check before now key) = Ok tt).
Proof.
  intros Hz. cbv zeta.
  destruct (zero_rate_recorded calls key (new_limiter time 0)) as [Hr Hl].
  cbn [new_limiter requests_per_second last_request_time] in Hr, Hl.
  rewrite lookup_empty in Hl.
  unfold check_rate_limit. rewrite Hr. unfold min_interval. rewrite Hz.
  cbn [Z.eqb].
  destruct (last_request_time time (snd (run (new_limiter time 0) calls))
            !! key) as [last|] eqn:E.
  - split; [reflexivity|]. intros Hnot. exfalso. apply Hnot.
    destruct (proj1 Hl (ex_intro _ last eq_refl)) as [[x Hx]|Hin];
      [discriminate|exact Hin].
  - split; [|reflexivity]. intros Hin.
    destruct (proj2 Hl (or_intror Hin)) as [x Hx]. discriminate.
Qed.

(** *** [initialize_rate_limiters] *)

Lemma initialize_other (rate_limits : list (string * Z)) (name : string)
    (self : APIHandler time) :
  ~ In name (map fst rate_limits) ->
  rate_limiters time (initialize_rate_limiters time self rate_limits) !! name
  = rate_limiters time self !! name.
Proof.
  revert self. unfold initialize_rate_limiters.
  induction rate_limits as [|[n r] rl IH]; intros self Hnot; [reflexivity|].
  cbn [fold_left]. rewrite IH.
  - cbn [rate_limiters fst]. apply lookup_insert_ne. intros ->.
    apply Hnot. left. reflexivity.
  - intros Hin. apply Hnot. right. exact Hin.
Qed.

(** X9.  After [initialize_rate_limiters] every configured name has a new
    limiter with the configured rate and no record, whatever was recorded
    before, so the next call for the name passes the rate-limit check;
    the limiters of other names are left alone. *)
Theorem initialize_rate_limiters_resets (self : APIHandler time)
    (rate_limits : list (string * Z)) (name : string) (rps : Z) (now : time) :
  List.NoDup (map fst rate_limits) ->
  In (name, rps) rate_limits ->
  let handler := initialize_rate_limiters time self rate_limits in
  rate_limiters time handler !! name = Some (new_limiter time rps)
  /\ fst (check (fst (get_rate_limiter time handler name)) now name) = Ok tt
  /\ (forall other, ~ In other (map fst rate_limits) ->
        rate_limiters time handler !! other = rate_limiters time self !! other).
Proof.
  intros Hnd Hin. cbv zeta.
  assert (Hlook : rate_limiters time
                    (initialize_rate_limiters time self rate_limits) !! name
                  = Some (new_limiter time rps)).
  { revert self Hnd Hin. induction rate_limits as [|[n r] rl IH];
      intros self Hnd Hin; [destruct Hin|].
    cbn [map fst] in Hnd. apply NoDup_cons_iff in Hnd as [Hnot Hnd].
    destruct Hin as [[= -> ->]|Hin].
    - change (initialize_rate_limiters time self ((name, rps) :: rl))
        with (initialize_rate_limiters time
                (mk_handler time (api_key time self)
                   (<[name := new_limiter time rps]> (rate_limiters time self)))
                rl).
      rewrite initialize_other by exact Hnot.
      cbn [rate_limiters]. apply lookup_insert_eq.
    - change (initialize_rate_limiters time self ((n, r) :: rl))
        with (initialize_rate_limiters time
                (mk_handler time (api_key time self)
                   (<[n := new_limiter time r]> (rate_limiters time self)))
                rl).
      apply IH; assumption. }
  split; [exact Hlook|]. split.
  - unfold get_rate_limiter. rewrite Hlook. cbn [fst].
    unfold check_rate_limit, new_limiter. cbn [last_request_time].
    rewrite lookup_empty. reflexivity.
  - intros other Hother. apply initialize_other. exact Hother.
Qed.

End Clock.

Lemma zero_rate_blocks_key_witness :
  check_rate_limit spec_float Double.sub Double.div Double.ltb Double.one
    Double.of_int
    (snd (run_calls spec_float Double.sub Double.div Double.ltb Double.one
            Double.of_int (new_limiter spec_float 0) Samples.limiter_calls))
    (Double.millis 2000000) "opensea"
  = (Raise (ZeroDivisionError (py "float division by zero")),
     snd (run_calls spec_float Double.sub Double.div Double.ltb Double.one
            Double.of_int (new_limiter spec_float 0) Samples.limiter_calls)).
Proof.
  apply (proj1 (zero_rate_blocks_key spec_float Double.sub Double.div
                  Double.ltb Double.one Double.of_int
                  (binary_normalize 53 1024 0 0 false) Samples.limiter_calls
                  "opensea" (Double.millis 2000000) eq_refl)).
  vm_compute. tauto.
Defined.

Lemma initialize_rate_limiters_resets_witness :
  rate_limiters spec_float
    (initialize_rate_limiters spec_float (mk_handler spec_float None ∅)
       [("default"%string, 10%Z); ("opensea"%string, 2%Z)])
    !! "opensea"
  = Some (new_limiter spec_float 2).
Proof.
  apply (proj1 (initialize_rate_limiters_resets spec_float Double.sub
                  Double.div Double.ltb Double.one Double.of_int
                  (mk_handler spec_float None ∅)
                  [("default"%string, 10%Z); ("opensea"%string, 2%Z)]
                  "opensea" 2 (Double.millis 0)
                  ltac:(repeat constructor; vm_compute; intuition discriminate)
                  ltac:(right; left; reflexivity))).
Defined.

End ApiMoreFacts.

(** ** More on [make_request] *)

Module RequestFacts.

Import Api ApiMore ApiFacts.

Section MakeRequest.

Variable time : Type.
Variable tsub : time -> time -> time.
Variable tdiv : time -> time -> time.
Variable tlt : time -> time -> bool.
Variable one : time.
Variable to_float : Z -> option time.

Variable url : str.
Variable timeout : Z.
Variable retry_count : Z.
Variable retry_delay : Z.
Variable transport : nat -> attempt_outcome.

Local Abbreviation try' := (try_request url timeout retry_count transport).
Local Abbreviation loop' :=
  (request_loop url timeout retry_count retry_delay transport).
Local Abbreviation check := (check_rate_limit time tsub tdiv tlt one to_float).
Local Abbreviation request :=
  (make_request time tsub tdiv tlt one to_float url timeout retry_count
                retry_delay transport).

Lemma try_request_raised (attempt : nat) (r : raised) :
  raised_in (transport attempt) = Some r ->
  try' attempt = on_raised url timeout retry_count attempt r.
Proof.
  unfold try_request, raised_in.
  destruct (transport attempt) as [r0|response]; [intros [= ->]; reflexivity|].
  destruct (bad_status (status response)).
  - destruct (read_text response); [intros [= ->]; reflexivity|discriminate].
  - destruct (read_json response); try discriminate.
    + destruct (read_text response); [intros [= ->]; reflexivity|discriminate].
    + intros [= ->]. reflexivity.
Qed.

Lemma try_request_answered (attempt : nat) :
  raised_in (transport attempt) = None ->
  exists response, try' attempt = Some response.
Proof.
  unfold try_request, raised_in.
  destruct (transport attempt) as [r0|response]; [discriminate|].
  destruct (bad_status (status response)).
  - destruct (read_text response); [discriminate|eauto].
  - destruct (read_json response); try discriminate; eauto.
    destruct (read_text response); [discriminate|eauto].
Qed.

(** The last attempt always returns. *)
Lemma try_request_last (attempt : nat) :
  Z.of_nat attempt = (retry_count - 1)%Z ->
  exists response, try' attempt = Some response.
Proof.
  intros Hlast. destruct (raised_in (transport attempt)) as [r|] eqn:E.
  - rewrite (try_request_raised _ _ E). unfold on_raised.
    rewrite (proj2 (Z.eqb_eq _ _) Hlast). eauto.
  - apply try_request_answered. exact E.
Qed.

Lemma requests_sent_cons_sleep (attempt : nat) (sleep events : list event) :
  (sleep = [] \/ exists seconds, sleep = [Sleep seconds]) ->
  requests_sent (Request attempt :: sleep ++ events)
  = S (requests_sent events).
Proof.
  intros [->|[seconds ->]]; reflexivity.
Qed.

Lemma request_loop_returns (remaining attempt : nat) :
  Z.of_nat (attempt + remaining) = retry_count -> 1 <= remaining ->
  exists response,
    fst (loop' remaining attempt) = Some response
    /\ 1 <= requests_sent (snd (loop' remaining attempt)) <= remaining.
Proof.
  revert attempt. induction remaining as [|remaining IH]; intros attempt E L;
    [lia|].
  cbn [request_loop]. destruct (try' attempt) as [response|] eqn:T.
  - exists response. cbn [fst snd]. split; [reflexivity|]. cbn. lia.
  - destruct remaining as [|remaining'].
    + destruct (try_request_last attempt) as [response H]; [lia|]. congruence.
    + destruct (IH (S attempt)) as (response & Hr & Hn); [lia|lia|].
      destruct (loop' (S remaining') (S attempt)) as [returned events].
      cbn [fst snd] in *. exists response. split; [exact Hr|].
      rewrite requests_sent_cons_sleep; [lia|].
      destruct (Z.of_nat attempt <? retry_count - 1)%Z; eauto.
Qed.

(** X10.  With [retry_count >= 1], a call that passes the rate-limit
    check returns an envelope, never [None], after at least one and at
    most [retry_count] requests; with [retry_count <= 0] it sends nothing
    and returns [None]. *)
Theorem make_request_returns (self : APIHandler time) (now : time)
    (api_name : string) :
  fst (check (fst (get_rate_limiter time self api_name)) now api_name)
  = Ok tt ->
  ((0 < retry_count)%Z ->
   exists response,
     fst (fst (request self now api_name)) = Ok (Some response)
     /\ 1 <= requests_sent (snd (request self now api_name))
     /\ (Z.of_nat (requests_sent (snd (request self now api_name)))
         <= retry_count)%Z)
  /\ ((retry_count <= 0)%Z ->
      fst (fst (request self now api_name)) = Ok None
      /\ snd (request self now api_name) = []).
Proof.
  unfold make_request.
  destruct (get_rate_limiter time self api_name) as [limiter self1].
  cbn [fst].
  destruct (check limiter now api_name) as [checked limiter1].
  cbn [fst]. intros ->. split.
  - intros Hpos.
    destruct (request_loop_returns (Z.to_nat retry_count) 0)
      as (response & Hr & Hn); [lia|lia|].
    destruct (loop' (Z.to_nat retry_count) 0) as [returned events].
    cbn [fst snd] in *. subst returned. exists response.
    split; [reflexivity|]. split; lia.
  - intros Hle. replace (Z.to_nat retry_count) with 0 by lia.
    cbn. split; reflexivity.
Qed.

Lemma request_loop_S (remaining attempt : nat) :
  loop' (S remaining) attempt
  = match try' attempt with
    | Some response => (Some response, [Request attempt])
    | None =>
        (fst (loop' remaining (S attempt)),
         Request attempt
         :: (if (Z.of_nat attempt <? retry_count - 1)%Z
             then [Sleep (retry_delay * (Z.of_nat attempt + 1))]
             else [])
         ++ snd (loop' remaining (S attempt)))
    end.
Proof.
  cbn [request_loop]. destruct (try' attempt); [reflexivity|].
  destruct (loop' remaining (S attempt)). reflexivity.
Qed.

(** Attempts that all raise: the loop sleeps longer after each and ends
    with the failure of the last. *)
Lemma request_loop_exhausted (rs : nat -> raised) (n attempt : nat) :
  Z.of_nat (attempt + S n) = retry_count ->
  (forall k, attempt <= k < attempt + S n ->
             raised_in (transport k) = Some (rs k)) ->
  loop' (S n) attempt
  = (Some (failure_envelope url timeout (rs (attempt + n))),
     backoff_events retry_delay (S n) attempt).
Proof.
  revert attempt. induction n as [|n IH]; intros attempt E Hall.
  - cbn [request_loop]. rewrite (try_request_raised _ _ (Hall attempt ltac:(lia))).
    unfold on_raised.
    rewrite (proj2 (Z.eqb_eq (Z.of_nat attempt) (retry_count - 1)) ltac:(lia)).
    replace (attempt + 0) with attempt by lia. reflexivity.
  - rewrite request_loop_S.
    rewrite (try_request_raised _ _ (Hall attempt ltac:(lia))).
    unfold on_raised.
    rewrite (proj2 (Z.eqb_neq (Z.of_nat attempt) (retry_count - 1)) ltac:(lia)).
    rewrite (proj2 (Z.ltb_lt (Z.of_nat attempt) (retry_count - 1)) ltac:(lia)).
    rewrite (IH (S attempt)); [| lia | intros k Hk; apply Hall; lia].
    replace (S attempt + n) with (attempt + S n) by lia.
    reflexivity.
Qed.

(** X11.  When every one of the [retry_count] attempts raises, the loop
    sends [retry_count] requests, sleeps [retry_delay * (k + 1)] seconds
    after attempt [k] except the last, and returns the failure envelope
    of the exception of the last attempt. *)
Theorem make_request_exhausted (self : APIHandler time) (now : time)
    (api_name : string) (rs : nat -> raised) (n : nat) :
  fst (check (fst (get_rate_limiter time self api_name)) now api_name)
  = Ok tt ->
  retry_count = Z.of_nat (S n) ->
  (forall k, k <= n -> raised_in (transport k) = Some (rs k)) ->
  fst (fst (request self now api_name))
  = Ok (Some (failure_envelope url timeout (rs n)))
  /\ snd (request self now api_name) = backoff_events retry_delay (S n) 0
  /\ requests_sent (snd (request self now api_name)) = S n.
Proof.
  unfold make_request.
  destruct (get_rate_limiter time self api_name) as [limiter self1].
  cbn [fst].
  destruct (check limiter now api_name) as [checked limiter1].
  cbn [fst]. intros -> Hn Hall.
  replace (Z.to_nat retry_count) with (S n) by lia.
  rewrite (request_loop_exhausted rs n 0);
    [| lia | intros k Hk; apply Hall; lia].
  cbn [fst snd]. split; [reflexivity|]. split; [reflexivity|].
  clear. generalize 0 as attempt.
  induction n as [|n IH]; intros attempt; [reflexivity|].
  change (backoff_events retry_delay (S (S n)) attempt)
    with (Request attempt :: Sleep (retry_delay * (Z.of_nat attempt + 1))
          :: backoff_events retry_delay (S n) (S attempt)).
  unfold requests_sent in *. cbn [List.filter is_request length].
  rewrite IH. reflexivity.
Qed.

End MakeRequest.

Section TwoRequests.

Variable time : Type.
Variable tsub : time -> time -> time.
Variable tdiv : time -> time -> time.
Variable tlt : time -> time -> bool.
Variable one : time.
Variable to_float : Z -> option time.

Local Abbreviation check := (check_rate_limit time tsub tdiv tlt one to_float).
Local Abbreviation request :=
  (make_request time tsub tdiv tlt one to_float).

(** X12.  A request records its clock value for the service before it is
    sent, whatever becomes of it; a second request for the same service
    less than the minimum interval later raises the rate-limit rejection,
    sends nothing and leaves the handler as it was. *)
Theorem second_request_rate_limited (self : APIHandler time)
    (now1 now2 : time) (api_name : string) (interval : time)
    (url1 url2 : str) (timeout1 timeout2 retries1 retries2 delay1 delay2 : Z)
    (transport1 transport2 : nat -> attempt_outcome) :
  let first :=
    request url1 timeout1 retries1 delay1 transport1 self now1 api_name in
  raises (fst (fst first)) = false ->
  min_interval time tdiv one to_float
    (requests_per_second time (fst (get_rate_limiter time self api_name)))
  = Ok interval ->
  tlt (tsub now2 now1) interval = true ->
  request url2 timeout2 retries2 delay2 transport2 (snd (fst first)) now2
          api_name
  = (Raise RATE_LIMIT_EXCEEDED, snd (fst first), []).
Proof.
  cbv zeta. unfold make_request.
  destruct (get_rate_limiter time self api_name) as [limiter self1] eqn:G.
  cbn [fst].
  destruct (check_outcome time tsub tdiv tlt one to_float limiter now1 api_name)
    as [(u & Ho & Hs)|(e & Ho & Hs)];
    destruct (check limiter now1 api_name) as [checked limiter1];
    cbn [fst snd] in Ho, Hs; subst checked limiter1;
    [|cbn; discriminate].
  destruct (request_loop url1 timeout1 retries1 delay1 transport1
              (Z.to_nat retries1) 0) as [returned events].
  cbn [fst snd]. intros _ Hi Ht.
  unfold get_rate_limiter at 1. cbn [rate_limiters api_key].
  rewrite lookup_insert_eq.
  unfold check_rate_limit.
  cbn [last_request_time requests_per_second]. rewrite lookup_insert_eq.
  rewrite Hi, Ht. cbn [api_key rate_limiters].
  rewrite insert_insert_eq. reflexivity.
Qed.

End TwoRequests.

Lemma make_request_returns_witness :
  exists response,
    fst (fst (make_request spec_float Double.sub Double.div Double.ltb
                Double.one Double.of_int MoreSamples.opensea_assets_url 30 3 1
                MoreSamples.timeout_transport (mk_handler spec_float None ∅)
                (Double.millis 1000000) "opensea"))
    = Ok (Some response).
Proof.
  pose proof (make_request_returns spec_float Double.sub Double.div
                Double.ltb Double.one Double.of_int
                MoreSamples.opensea_assets_url 30 3 1
                MoreSamples.timeout_transport (mk_handler spec_float None ∅)
                (Double.millis 1000000) "opensea") as H.
  assert (H0 : fst (check_rate_limit spec_float Double.sub Double.div
                      Double.ltb Double.one Double.of_int
                      (fst (get_rate_limiter spec_float
                              (mk_handler spec_float None ∅) "opensea"))
                      (Double.millis 1000000) "opensea") = Ok tt)
    by (vm_compute; reflexivity).
  destruct (H H0) as [Hpos _].
  destruct (Hpos ltac:(lia)) as (response & Hr & _).
  exists response. exact Hr.
Defined.

Lemma make_request_exhausted_witness :
  snd (make_request spec_float Double.sub Double.div Double.ltb
         Double.one Double.of_int MoreSamples.opensea_assets_url 30 3 2
         MoreSamples.timeout_transport (mk_handler spec_float None ∅)
         (Double.millis 1000000) "opensea")
  = [Request 0; Sleep 2; Request 1; Sleep 4; Request 2].
Proof.
  pose proof (make_request_exhausted spec_float Double.sub Double.div
                Double.ltb Double.one Double.of_int
                MoreSamples.opensea_assets_url 30 3 2
                MoreSamples.timeout_transport (mk_handler spec_float None ∅)
                (Double.millis 1000000) "opensea" (fun _ => TimeoutError) 2)
    as H.
  assert (H0 : fst (check_rate_limit spec_float Double.sub Double.div
                      Double.ltb Double.one Double.of_int
                      (fst (get_rate_limiter spec_float
                              (mk_handler spec_float None ∅) "opensea"))
                      (Double.millis 1000000) "opensea") = Ok tt)
    by (vm_compute; reflexivity).
  destruct (H H0 eq_refl (fun k _ => eq_refl)) as (_ & Hevents & _).
  exact Hevents.
Defined.

Lemma second_request_rate_limited_witness :
  fst (fst (make_request spec_float Double.sub Double.div Double.ltb
              Double.one Double.of_int MoreSamples.opensea_assets_url 30 3 1
              Samples.not_found_transport
              (snd (fst (make_request spec_float Double.sub Double.div
                           Double.ltb Double.one Double.of_int
                           MoreSamples.opensea_assets_url 30 3 1
                           Samples.not_found_transport
                           (mk_handler spec_float None ∅)
                           (Double.millis 1000000) "opensea")))
              (Double.millis 1000050) "opensea"))
  = Raise RATE_LIMIT_EXCEEDED.
Proof.
  pose proof (second_request_rate_limited spec_float Double.sub Double.div
                Double.ltb Double.one Double.of_int
                (mk_handler spec_float None ∅) (Double.millis 1000000)
                (Double.millis 1000050) "opensea"
                (Double.div Double.one (binary_normalize 53 1024 10 0 false))
                MoreSamples.opensea_assets_url MoreSamples.opensea_assets_url
                30 30 3 3 1 1 Samples.not_found_transport
                Samples.not_found_transport) as H.
  cbv zeta in H.
  rewrite H; [reflexivity| | |]; vm_compute; reflexivity.
Defined.

End RequestFacts.

(** ** More on the tools *)

Module ToolsMore.

Import Api Tools.

(** With the three attempts of the decorator's default, a failure of the
    function ends the wrapper with the [NameError]. *)
Lemma retry_on_failure_default_raises (world A : Type) (func : M world A)
    (w w' : world) (e : exn) :
  func w = (Raise e, w') ->
  retry_on_failure 3 func w
  = (Raise (NameError (py "name 'asyncio' is not defined")), w').
Proof.
  intros H. unfold retry_on_failure. cbn [retry_loop]. unfold try_except.
  rewrite H. reflexivity.
Qed.

(** X13.  [retry_on_failure] never retries.  With two attempts or more, a
    failure of the first run of the function ends the wrapper with a
    [NameError] in place of the function's own exception, because the
    sleep between attempts cannot be reached; with one attempt the
    function's exception passes through; with none the function is not
    run at all. *)
Theorem retry_on_failure_never_retries (world A : Type) (func : M world A)
    (w : world) (n : nat) :
  retry_on_failure 0 func w
  = (Raise (TypeError (py "exceptions must derive from BaseException")), w)
  /\ retry_on_failure 1 func w = func w
  /\ retry_on_failure (S (S n)) func w
     = match func w with
       | (Ok a, w') => (Ok a, w')
       | (Raise e, w') =>
           (Raise (NameError (py "name 'asyncio' is not defined")), w')
       end.
Proof.
  unfold retry_on_failure. cbn [retry_loop]. unfold try_except, raise.
  split; [reflexivity|]. split.
  - destruct (func w) as [[a|e] w']; reflexivity.
  - destruct (func w) as [[a|e] w']; reflexivity.
Qed.

Section NFTTool.

Variable world : Type.
Variable value : Type.
Variable is_address : str -> bool.
Variable NFT_ANALYSIS_LIMIT : Z.
Variable make_request : request -> M world (option envelope).
Variable get_collection_stats_body : str -> M world value.
Variable get_token_metadata_body : str -> Z -> M world value.
Variable get_sales_history_body : str -> Z -> M world value.
Variable analyze_price_trends : value -> M world value.

Local Abbreviation loop' := (rarity_loop world make_request).
Local Abbreviation rarity := (calculate_rarity_scores world make_request).
Local Abbreviation body' :=
  (execute_body world value is_address NFT_ANALYSIS_LIMIT make_request
     get_collection_stats_body get_token_metadata_body get_sales_history_body
     analyze_price_trends).
Local Abbreviation execute' :=
  (execute world value is_address NFT_ANALYSIS_LIMIT make_request
     get_collection_stats_body get_token_metadata_body get_sales_history_body
     analyze_price_trends).

(** X14.  For an address that [Web3.is_address] rejects, [execute]
    returns the error envelope of the validation and leaves the world as
    it was: no helper runs and no request is made. *)
Theorem execute_invalid_address_untouched (contract_address : str)
    (kw : kwargs) (w : world) :
  is_address contract_address = false ->
  execute' contract_address kw w
  = (Ok (mk_tool_envelope (py "error") (py "NFTTool") None
           (Some (py "Invalid NFT contract address"))), w).
Proof.
  intros H. unfold execute, try_except, execute_body, bindM, validate_input.
  rewrite H. reflexivity.
Qed.

(** X15.  When the body of a decorated helper raises, whatever the
    exception, the envelope [execute] returns carries the text of the
    [NameError] of the retry wrapper, not the helper's own message. *)
Theorem execute_stats_error_masked (contract_address : str) (kw : kwargs)
    (w : world) (e : exn) :
  is_address contract_address = true ->
  fst (get_collection_stats_body contract_address w) = Raise e ->
  fst (execute' contract_address kw w)
  = Ok (mk_tool_envelope (py "error") (py "NFTTool") None
          (Some (py "name 'asyncio' is not defined"))).
Proof.
  intros Ha He.
  unfold execute, try_except, execute_body, bindM, validate_input.
  rewrite Ha. unfold ret at 1. unfold get_collection_stats.
  destruct (get_collection_stats_body contract_address w) as [[a|e'] w']
    eqn:B; [discriminate|].
  rewrite (retry_on_failure_default_raises _ _ _ _ _ _ B). reflexivity.
Qed.

Lemma rarity_returns_None (contract_address : str) (limit : Z) (w w' : world)
    (v : json) :
  rarity contract_address limit w = (Ok v, w') -> v = JNull.
Proof.
  unfold calculate_rarity_scores, calculate_rarity_scores_fuel, bindM.
  destruct (loop' (Z.to_nat limit) contract_address limit [] 0%Z w)
    as [[[|a assets]|e] w1]; [discriminate| |discriminate].
  intros [= <- _]. reflexivity.
Qed.

(** X16.  A success envelope of [execute] never carries a rarity value:
    its [rarity_analysis] is [None] when rarity was asked for, and the
    key is absent when it was not. *)
Theorem execute_rarity_is_None (contract_address : str) (kw : kwargs)
    (w : world) (env : tool_envelope (nft_result value)) :
  fst (execute' contract_address kw w) = Ok env ->
  env_status env = py "success" ->
  exists r,
    env_result env = Some r
    /\ rarity_analysis value r
       = if flag (kw_include_rarity kw) then Some JNull else None.
Proof.
  unfold execute, try_except.
  destruct (body' contract_address kw w) as [[env'|e] w1] eqn:B; cbn [fst].
  - intros [= <-] _. unfold execute_body in B.
    apply ToolsFacts.bindM_Ok in B as (? & w2 & _ & B).
    apply ToolsFacts.bindM_Ok in B as (stats & w3 & _ & B).
    apply ToolsFacts.bindM_Ok in B as (rar & w4 & Hr & B).
    apply ToolsFacts.bindM_Ok in B as (sales & w5 & _ & B).
    apply ToolsFacts.bindM_Ok in B as (meta & w6 & _ & B).
    unfold format_output, ret in B. injection B as <- _.
    eexists. split; [reflexivity|]. cbn [rarity_analysis].
    destruct (flag (kw_include_rarity kw)).
    + apply ToolsFacts.bindM_Ok in Hr as (v & w7 & Hv & Hret).
      unfold ret in Hret. injection Hret as <- _.
      rewrite (rarity_returns_None _ _ _ _ _ Hv). reflexivity.
    + unfold ret in Hr. injection Hr as <- _. reflexivity.
  - unfold handle_error, ret. cbn [fst]. intros [= <-]. cbn. discriminate.
Qed.

(** X17.  With [limit <= 0] the loop of [calculate_rarity_scores] does not
    run: the function raises its [ToolException] and makes no request. *)
Theorem rarity_nonpositive_limit (contract_address : str) (limit : Z)
    (w : world) :
  (limit <= 0)%Z ->
  rarity contract_address limit w
  = (Raise (ToolException
              (py "Failed to fetch assets for rarity calculation")), w).
Proof.
  intros H. unfold calculate_rarity_scores, calculate_rarity_scores_fuel.
  replace (Z.to_nat limit) with 0 by lia. reflexivity.
Qed.

(** X18.  With [limit > 0] the first request asks for
    [min(50, limit)] assets from offset 0, and a failure of it decides
    the call: an exception of the request passes through, [None] for a
    response gives a [TypeError], and a response that is not a success
    gives the [ToolException], each without a second request. *)
Theorem rarity_first_request (contract_address : str) (limit : Z)
    (w : world) :
  (0 < limit)%Z ->
  match make_request
          (mk_request (OPENSEA_API ++ py "/assets")
             [(py "asset_contract_address", JStr contract_address);
              (py "limit", JInt (Z.min 50 limit));
              (py "offset", JInt 0)]) w with
  | (Raise e, w1) => rarity contract_address limit w = (Raise e, w1)
  | (Ok None, w1) =>
      rarity contract_address limit w
      = (Raise (TypeError (py "'NoneType' object is not subscriptable")), w1)
  | (Ok (Some response), w1) =>
      success response = false ->
      rarity contract_address limit w
      = (Raise (ToolException
                  (py "Failed to fetch assets for rarity calculation")), w1)
  end.
Proof.
  intros H. unfold calculate_rarity_scores, calculate_rarity_scores_fuel.
  destruct (Z.to_nat limit) as [|fuel] eqn:E; [lia|].
  cbn [rarity_loop length]. change (Z.of_nat 0) with 0%Z.
  rewrite (proj2 (Z.ltb_lt 0 limit) H).
  unfold rarity_round. cbn [length]. change (Z.of_nat 0) with 0%Z.
  rewrite Z.sub_0_r. unfold bindM.
  destruct (make_request _ w) as [[[response|]|e] w1]; try reflexivity.
  intros Hs. rewrite Hs. reflexivity.
Qed.

End NFTTool.

Lemma execute_invalid_address_untouched_witness :
  execute unit unit (fun _ => false) 1000
    (fun _ => raise (ValueError (py "unused")))
    (fun _ => ret tt) (fun _ _ => ret tt) (fun _ _ => ret tt)
    (fun _ => ret tt)
    (py "not-an-address") (mk_kwargs None None None None None) tt
  = (Ok (mk_tool_envelope (py "error") (py "NFTTool") None
           (Some (py "Invalid NFT contract address"))), tt).
Proof.
  apply (execute_invalid_address_untouched unit unit (fun _ => false) 1000
           (fun _ => raise (ValueError (py "unused")))
           (fun _ => ret tt) (fun _ _ => ret tt) (fun _ _ => ret tt)
           (fun _ => ret tt)
           (py "not-an-address") (mk_kwargs None None None None None) tt).
  reflexivity.
Defined.

Lemma execute_stats_error_masked_witness :
  fst (execute unit unit (fun _ => true) 1000
         (fun _ => raise (ValueError (py "unused")))
         (fun _ => raise (ToolException
                            (py "Failed to fetch collection stats: HTTP 404")))
         (fun _ _ => ret tt) (fun _ _ => ret tt) (fun _ => ret tt)
         (py "0xabc") (mk_kwargs None None None None None) tt)
  = Ok (mk_tool_envelope (py "error") (py "NFTTool") None
          (Some (py "name 'asyncio' is not defined"))).
Proof.
  apply (execute_stats_error_masked unit unit (fun _ => true) 1000
           (fun _ => raise (ValueError (py "unused")))
           (fun _ => raise (ToolException
                              (py "Failed to fetch collection stats: HTTP 404")))
           (fun _ _ => ret tt) (fun _ _ => ret tt) (fun _ => ret tt)
           (py "0xabc") (mk_kwargs None None None None None) tt
           (ToolException (py "Failed to fetch collection stats: HTTP 404")));
    reflexivity.
Defined.

Lemma execute_rarity_is_None_witness :
  exists r,
    env_result
      (mk_tool_envelope (py "success") (py "NFTTool")
         (Some (mk_nft_result unit tt (Some JNull) None None None)) None)
    = Some r
    /\ rarity_analysis unit r = Some JNull.
Proof.
  apply (execute_rarity_is_None (list nat) unit (fun _ => true) 1000
           MoreSamples.one_page_upstream
           (fun _ => ret tt) (fun _ _ => ret tt) (fun _ _ => ret tt)
           (fun _ => ret tt)
           (py "0xabc") (mk_kwargs (Some true) None None None None) []).
  - vm_compute. reflexivity.
  - reflexivity.
Defined.

Lemma rarity_first_request_witness :
  calculate_rarity_scores unit MoreSamples.failing_upstream (py "0xabc") 5 tt
  = (Raise (ToolException
              (py "Failed to fetch assets for rarity calculation")), tt).
Proof.
  apply (rarity_first_request unit MoreSamples.failing_upstream (py "0xabc")
           5 tt).
  - lia.
  - reflexivity.
Defined.

Lemma rarity_nonpositive_limit_witness :
  calculate_rarity_scores unit (fun _ => ret None) (py "0xabc") 0 tt
  = (Raise (ToolException
              (py "Failed to fetch assets for rarity calculation")), tt).
Proof.
  apply (rarity_nonpositive_limit unit (fun _ => ret None) (py "0xabc") 0 tt).
  lia.
Defined.

End ToolsMore.

(** ** The cache of the collection statistics *)

Module NftStatsFacts.

Import Api Tools NftStats.

Section Stats.

Variable outside : Type.
Variable now : M outside Z.
Variable make_request : request -> M outside (option envelope).

Local Abbreviation world := (tool_world outside).
Local Abbreviation body := (get_collection_stats_body outside now make_request).
Local Abbreviation fetch := (fetch_collection_stats outside now make_request).
Local Abbreviation stats := (get_collection_stats outside now make_request).

(** The wrapper passes a value through. *)
Lemma retry_on_failure_value (A : Type) (func : M world A) (w w' : world)
    (a : A) :
  func w = (Ok a, w') -> retry_on_failure 3 func w = (Ok a, w').
Proof.
  intros H. unfold retry_on_failure. cbn [retry_loop]. unfold try_except.
  rewrite H. reflexivity.
Qed.

Lemma retry_on_failure_inv (A : Type) (func : M world A) (w w' : world)
    (r : result A) :
  retry_on_failure 3 func w = (r, w') ->
  snd (func w) = w'
  /\ match r with
     | Ok a => fst (func w) = Ok a
     | Raise e =>
         e = NameError (py "name 'asyncio' is not defined")
         /\ raises (fst (func w)) = true
     end.
Proof.
  unfold retry_on_failure. cbn [retry_loop]. unfold try_except, raise.
  destruct (func w) as [[a|e] w1]; intros [= <- <-]; cbn; auto.
Qed.

(** What a fetch does to the cache: on a value the result is stored under
    the key of the address, on an exception nothing is. *)
Lemma fetch_cache (contract_address : str) (w : world) :
  match fetch contract_address w with
  | (Ok result, w') =>
      exists timestamp,
        cache outside w'
        = <[cache_key contract_address := (timestamp, result)]>
            (cache outside w)
  | (Raise _, w') => cache outside w' = cache outside w
  end.
Proof.
  unfold fetch_collection_stats, bindM, lift, raise, ret, cache_set.
  cbn [fst snd cache outside_world].
  destruct (fst (make_request _ (outside_world outside w)))
    as [[response|]|e]; try reflexivity.
  destruct (success response); cbn [negb].
  - destruct (data response) as [d|]; [|reflexivity].
    destruct (payload_subscript d (py "stats")) as [st|e]; [|reflexivity].
    destruct (stats_result st STATS_KEYS) as [result|e]; [|reflexivity].
    cbn [fst snd cache outside_world].
    destruct (fst (now _)) as [t|e]; cbn [cache]; eauto.
  - destruct (error response); reflexivity.
Qed.

(** X19.  A cached entry that is less than 300 seconds old is returned
    as it is: no request is made, only the clock is read, and the cache
    stays as it was. *)
Theorem get_collection_stats_cache_hit (contract_address : str) (w : world)
    (timestamp current : Z) (data : list (str * json)) :
  cache outside w !! cache_key contract_address = Some (timestamp, data) ->
  fst (now (outside_world outside w)) = Ok current ->
  (current - timestamp < 300 * 1000000)%Z ->
  stats contract_address w
  = (Ok data,
     mk_tool_world outside (cache outside w)
       (snd (now (outside_world outside w)))).
Proof.
  intros Hc Hn Hfresh. unfold get_collection_stats.
  apply retry_on_failure_value. unfold get_collection_stats_body.
  rewrite Hc. unfold bindM, lift. cbn [fst snd]. rewrite Hn.
  unfold CACHE_TTL. rewrite (proj2 (Z.ltb_lt _ _) Hfresh). reflexivity.
Qed.

Lemma body_cache (contract_address : str) (w : world) :
  match body contract_address w with
  | (Ok result, w') =>
      exists timestamp,
        cache outside w' !! cache_key contract_address
        = Some (timestamp, result)
        /\ forall key, key <> cache_key contract_address ->
                       cache outside w' !! key = cache outside w !! key
  | (Raise _, w') => cache outside w' = cache outside w
  end.
Proof.
  unfold get_collection_stats_body.
  destruct (cache outside w !! cache_key contract_address)
    as [[timestamp data]|] eqn:Hc.
  - unfold bindM, lift. cbn [fst snd].
    destruct (fst (now (outside_world outside w))) as [current|e];
      [|reflexivity].
    destruct (current - timestamp <? CACHE_TTL)%Z.
    + unfold ret. exists timestamp. split; [exact Hc|reflexivity].
    + pose proof (fetch_cache contract_address
                    (mk_tool_world outside (cache outside w)
                       (snd (now (outside_world outside w))))) as H.
      destruct (fetch contract_address _) as [[result|e] w'];
        cbn [cache] in H; [|exact H].
      destruct H as [t H]. exists t. rewrite H. split.
      * apply lookup_insert_eq.
      * intros key Hk. apply lookup_insert_ne. congruence.
  - pose proof (fetch_cache contract_address w) as H.
    destruct (fetch contract_address w) as [[result|e] w']; [|exact H].
    destruct H as [t H]. exists t. rewrite H. split.
    + apply lookup_insert_eq.
    + intros key Hk. apply lookup_insert_ne. congruence.
Qed.

(** X20.  A call that returns leaves what it returned in the cache under
    the key of the address, and the entries of other addresses as they
    were; so a second call within 300 seconds of the entry's time gives
    the same result without a request. *)
Theorem get_collection_stats_cached (contract_address : str) (w w' : world)
    (result : list (str * json)) :
  stats contract_address w = (Ok result, w') ->
  exists timestamp,
    cache outside w' !! cache_key contract_address = Some (timestamp, result)
    /\ (forall key, key <> cache_key contract_address ->
                    cache outside w' !! key = cache outside w !! key)
    /\ (forall current,
          fst (now (outside_world outside w')) = Ok current ->
          (current - timestamp < 300 * 1000000)%Z ->
          fst (stats contract_address w') = Ok result).
Proof.
  intros H. apply retry_on_failure_inv in H as [Hw Hr].
  pose proof (body_cache contract_address w) as Hb.
  destruct (body contract_address w) as [[r|e] w1]; cbn [fst snd] in *;
    [|discriminate].
  injection Hr as ->. subst w1. destruct Hb as (t & Ht & Hother).
  exists t. split; [exact Ht|]. split; [exact Hother|].
  intros current Hn Hfresh.
  unfold get_collection_stats.
  erewrite retry_on_failure_value; [reflexivity|].
  unfold get_collection_stats_body. rewrite Ht.
  unfold bindM, lift. cbn [fst snd]. rewrite Hn.
  unfold CACHE_TTL. rewrite (proj2 (Z.ltb_lt _ _) Hfresh). reflexivity.
Qed.

(** X21.  A call that fails caches nothing: the cache is as it was, and
    the exception that comes out is the [NameError] of the retry
    wrapper. *)
Theorem get_collection_stats_failure (contract_address : str) (w w' : world)
    (e : exn) :
  stats contract_address w = (Raise e, w') ->
  cache outside w' = cache outside w
  /\ e = NameError (py "name 'asyncio' is not defined").
Proof.
  intros H. apply retry_on_failure_inv in H as [Hw [He Hr]].
  pose proof (body_cache contract_address w) as Hb.
  destruct (body contract_address w) as [[r|e'] w1]; cbn [fst snd] in *;
    [discriminate|].
  subst w1. split; [exact Hb|exact He].
Qed.

End Stats.

Import Samples MoreSamples.

Lemma get_collection_stats_cache_hit_witness :
  get_collection_stats Z ticking_clock down_upstream address_lower cached_world
  = (Ok floor_price_stats,
     mk_tool_world Z (cache Z cached_world)
       (snd (ticking_clock (outside_world Z cached_world)))).
Proof.
  apply (get_collection_stats_cache_hit Z ticking_clock down_upstream
           address_lower cached_world 7000000%Z 100000000%Z floor_price_stats).
  - apply lookup_singleton_eq.
  - reflexivity.
  - vm_compute. reflexivity.
Defined.

Lemma get_collection_stats_cached_witness :
  exists timestamp,
    cache Z (snd (get_collection_stats Z ticking_clock stats_upstream
                    address_lower empty_cache_world))
      !! cache_key address_lower
    = Some (timestamp, floor_price_stats)
    /\ (forall key, key <> cache_key address_lower ->
                    cache Z (snd (get_collection_stats Z ticking_clock
                                    stats_upstream address_lower
                                    empty_cache_world)) !! key
                    = cache Z empty_cache_world !! key)
    /\ (forall current,
          fst (ticking_clock
                 (outside_world Z
                    (snd (get_collection_stats Z ticking_clock stats_upstream
                            address_lower empty_cache_world))))
          = Ok current ->
          (current - timestamp < 300 * 1000000)%Z ->
          fst (get_collection_stats Z ticking_clock stats_upstream
                 address_lower
                 (snd (get_collection_stats Z ticking_clock stats_upstream
                         address_lower empty_cache_world)))
          = Ok floor_price_stats).
Proof.
  apply (get_collection_stats_cached Z ticking_clock stats_upstream
           address_lower empty_cache_world).
  rewrite (surjective_pairing
             (get_collection_stats Z ticking_clock stats_upstream
                address_lower empty_cache_world)) at 1.
  f_equal.
Defined.

Lemma get_collection_stats_failure_witness :
  cache Z (snd (get_collection_stats Z ticking_clock down_upstream
                  address_lower empty_cache_world))
  = cache Z empty_cache_world
  /\ NameError (py "name 'asyncio' is not defined")
     = NameError (py "name 'asyncio' is not defined").
Proof.
  apply (get_collection_stats_failure Z ticking_clock down_upstream
           address_lower empty_cache_world).
  rewrite (surjective_pairing
             (get_collection_stats Z ticking_clock down_upstream
                address_lower empty_cache_world)) at 1.
  f_equal.
Defined.

End NftStatsFacts.
